(** * Registry index validation: scripts/validate-index.ts and
      scripts/validate-pack.sh

    A shallow embedding of the two scripts and the properties of the
    specification checked against them.

    The TypeScript validator is embedded over the values that [JSON.parse]
    can return.  What belongs to the JavaScript runtime rather than to the
    script is left open: numbers (their truth value and their text), the
    URL parser behind [new URL], and the date parser behind [new Date].
    They are the fields of the class [Runtime]; every general theorem holds
    for every runtime, and closed examples are evaluated in
    [sample_runtime]. *)

From Stdlib Require Import ZArith NArith Ascii String DecimalNat.
From stdpp Require Import base decidable countable list gmap.

Local Open Scope N_scope.
Local Open Scope list_scope.

(** ** JavaScript strings

    A JavaScript string is a sequence of UTF-16 code units; a code unit is
    kept as a number.  [ustr] writes an ASCII literal of the source as such
    a sequence. *)

Definition ustring : Type := list N.

Definition ustr (s : string) : ustring :=
  map N_of_ascii (list_ascii_of_string s).

(** [${i}] for an array index [i]: its decimal digits. *)
Fixpoint digits (u : Decimal.uint) : ustring :=
  match u with
  | Decimal.Nil => []
  | Decimal.D0 r => 48 :: digits r
  | Decimal.D1 r => 49 :: digits r
  | Decimal.D2 r => 50 :: digits r
  | Decimal.D3 r => 51 :: digits r
  | Decimal.D4 r => 52 :: digits r
  | Decimal.D5 r => 53 :: digits r
  | Decimal.D6 r => 54 :: digits r
  | Decimal.D7 r => 55 :: digits r
  | Decimal.D8 r => 56 :: digits r
  | Decimal.D9 r => 57 :: digits r
  end.

Definition index_toString (i : nat) : ustring := digits (Nat.to_uint i).

(** The code units that [String.prototype.trim] strips: ECMAScript's
    WhiteSpace and LineTerminator. *)
Definition is_white_space (c : N) : bool :=
  (9 <=? c) && (c <=? 13) || (c =? 32) || (c =? 160) || (c =? 5760)
  || (8192 <=? c) && (c <=? 8202) || (c =? 8232) || (c =? 8233)
  || (c =? 8239) || (c =? 8287) || (c =? 12288) || (c =? 65279).

Fixpoint trimStart (s : ustring) : ustring :=
  match s with
  | [] => []
  | c :: r => if is_white_space c then trimStart r else s
  end.

Definition trimEnd (s : ustring) : ustring := rev (trimStart (rev s)).

Definition trim (s : ustring) : ustring := trimEnd (trimStart s).

(** [\d] *)
Definition is_digit (c : N) : bool := (48 <=? c) && (c <=? 57).

(** [[a-fA-F0-9]] *)
Definition is_hex (c : N) : bool :=
  (97 <=? c) && (c <=? 102) || (65 <=? c) && (c <=? 70) || is_digit c.

(** ** Parsed JSON

    What [JSON.parse] returns.  An object lists its members as the document
    writes them; a name written twice keeps its last value, as
    [JSON.parse] does.  Numbers are IEEE doubles in the runtime and are
    left abstract here. *)

#[warnings="-register-all"]
Inductive json (number : Type) : Type :=
  | JNull
  | JBool (b : bool)
  | JNum (n : number)
  | JStr (s : ustring)
  | JArr (items : list (json number))
  | JObj (members : list (ustring * json number)).

Arguments JNull {number}.
Arguments JBool {number} b.
Arguments JNum {number} n.
Arguments JStr {number} s.
Arguments JArr {number} items.
Arguments JObj {number} members.

(** The result of [typeof]. *)
Inductive js_type : Type :=
  | Tundefined | Tobject | Tboolean | Tnumber | Tstring.

Definition js_type_eqb (a b : js_type) : bool :=
  match a, b with
  | Tundefined, Tundefined | Tobject, Tobject | Tboolean, Tboolean
  | Tnumber, Tnumber | Tstring, Tstring => true
  | _, _ => false
  end.

(** The exception a failed conversion to a primitive raises. *)
Inductive js_error : Type := TypeError.

(** What the script asks of the runtime.
    - [number_falsy n]: [!n] (true of zero).
    - [Number_toString n]: [String(n)].
    - [URL_protocol s]: [new URL(s).protocol], or [None] when the
      constructor throws.
    - [Date_isNaN s]: [Number.isNaN(new Date(s).getTime())]. *)
Class Runtime (number : Type) : Type := {
  number_falsy : number -> bool;
  Number_toString : number -> ustring;
  URL_protocol : ustring -> option ustring;
  Date_isNaN : ustring -> bool
}.

Section Values.
Context {number : Type} `{!Runtime number}.

Definition typeof (v : json number) : js_type :=
  match v with
  | JNull => Tobject
  | JBool _ => Tboolean
  | JNum _ => Tnumber
  | JStr _ => Tstring
  | JArr _ => Tobject
  | JObj _ => Tobject
  end.

(** [!v] *)
Definition js_not (v : json number) : bool :=
  match v with
  | JNull => true
  | JBool b => negb b
  | JNum n => number_falsy n
  | JStr s => bool_decide (s = [])
  | JArr _ => false
  | JObj _ => false
  end.

Definition Array_isArray (v : json number) : bool :=
  match v with
  | JArr _ => true
  | _ => false
  end.

(** The own property [key] of an object built by [JSON.parse]. *)
Fixpoint own_property (key : ustring) (members : list (ustring * json number))
  : option (json number) :=
  match members with
  | [] => None
  | (k, v) :: rest =>
      match own_property key rest with
      | Some w => Some w
      | None => if bool_decide (k = key) then Some v else None
      end
  end.

(** [record[key]] for one of the twelve field names the validator reads;
    [None] is [undefined].  None of these names is an array index,
    ["length"], or a member of a prototype ([Object], [Array], [Number],
    [String], [Boolean]): an object has exactly its own, and an array, a
    number, a string and a boolean have none of them.  (On [null] the
    access would throw; line 61 keeps the script from ever making it.) *)
Definition get (record : json number) (key : ustring) : option (json number) :=
  match record with
  | JObj members => own_property key members
  | _ => None
  end.

(** [ToString], the conversion behind [String(v)] and [`${v}`].
    An array is joined with commas ([Array.prototype.toString] calls
    [join]), [null] elements giving the empty string.  An object goes
    through [OrdinaryToPrimitive] with hint string, which calls its
    [toString] and then its [valueOf]: it is ["[object Object]"] by
    [Object.prototype.toString], unless it has an own member named
    ["toString"].  That member, a JSON value, is not callable; the
    [valueOf] that is tried next is either an own member, not callable
    either, or the inherited one, which returns the object itself; no
    primitive is obtained and the conversion throws a [TypeError]. *)
Fixpoint ToString (v : json number) : js_error + ustring :=
  match v with
  | JNull => inr (ustr "null")
  | JBool true => inr (ustr "true")
  | JBool false => inr (ustr "false")
  | JNum n => inr (Number_toString n)
  | JStr s => inr s
  | JArr items =>
      (fix join (l : list (json number)) : js_error + ustring :=
         match l with
         | [] => inr []
         | x :: rest =>
             match (match x with JNull => inr [] | _ => ToString x end) with
             | inl e => inl e
             | inr sx =>
                 match rest with
                 | [] => inr sx
                 | _ :: _ =>
                     match join rest with
                     | inl e => inl e
                     | inr sr => inr (sx ++ ustr "," ++ sr)
                     end
                 end
             end
         end) items
  | JObj members =>
      match own_property (ustr "toString") members with
      | Some _ => inl TypeError
      | None => inr (ustr "[object Object]")
      end
  end.

(** [String(v)] where [v] may be [undefined]. *)
Definition String_ (v : option (json number)) : js_error + ustring :=
  match v with
  | None => inr (ustr "undefined")
  | Some j => ToString j
  end.

(** *** The predicates of the script *)

Definition isNonEmptyString (value : option (json number)) : bool :=
  match value with
  | Some (JStr s) => (0 <? length (trim s))%nat
  | _ => false
  end.

Definition isHttpsUrl (value : option (json number)) : bool :=
  if negb (isNonEmptyString value) then false
  else
    match value with
    | Some (JStr s) =>
        match URL_protocol s with
        | Some protocol => bool_decide (protocol = ustr "https:")
        | None => false
        end
    | _ => false
    end.

(** [/^[a-fA-F0-9]{64}$/] *)
Definition sha256_pattern (s : ustring) : bool :=
  (length s =? 64)%nat && forallb is_hex s.

Definition isSha256 (value : option (json number)) : bool :=
  isNonEmptyString value
  && match value with
     | Some (JStr s) => sha256_pattern s
     | _ => false
     end.

(** [/^\d{4}-\d{2}-\d{2}$/] *)
Definition date_pattern (s : ustring) : bool :=
  match s with
  | [y1; y2; y3; y4; h1; m1; m2; h2; d1; d2] =>
      is_digit y1 && is_digit y2 && is_digit y3 && is_digit y4
      && (h1 =? 45) && is_digit m1 && is_digit m2 && (h2 =? 45)
      && is_digit d1 && is_digit d2
  | _ => false
  end.

Definition isIsoDate (value : option (json number)) : bool :=
  if negb (isNonEmptyString value) then false
  else
    match value with
    | Some (JStr s) =>
        if negb (date_pattern s) then false
        else negb (Date_isNaN (s ++ ustr "T00:00:00Z"))
    | _ => false
    end.

Definition assertArrayOfStrings (value : option (json number)) : bool :=
  match value with
  | Some (JArr items) =>
      (0 <? length items)%nat
      && forallb (fun v => isNonEmptyString (Some v)) items
  | _ => false
  end.

End Values.

(** ** The process

    The script writes lines to the two console streams, sets
    [process.exitCode], and fills the set [seen].  A computation either
    returns, throws, or ends the process through [process.exit]; the lines
    already written stay written in each case. *)

Record process : Type := {
  err : list ustring;            (* lines of console.error, oldest first *)
  out : list ustring;            (* lines of console.log *)
  exitCode : option Z;           (* process.exitCode; None is undefined *)
  seen : gset ustring            (* const seen = new Set<string>() *)
}.

Definition start : process :=
  {| err := []; out := []; exitCode := None; seen := ∅ |}.

Inductive outcome (A : Type) : Type :=
  | Returned (a : A) (p : process)
  | Threw (e : js_error) (p : process)
  | Exited (code : Z) (p : process).

Arguments Returned {A} a p.
Arguments Threw {A} e p.
Arguments Exited {A} code p.

Definition script (A : Type) : Type := process -> outcome A.

Definition ret {A} (a : A) : script A := fun p => Returned a p.

Definition bind {A B} (c : script A) (k : A -> script B) : script B :=
  fun p =>
    match c p with
    | Returned a p' => k a p'
    | Threw e p' => Threw e p'
    | Exited code p' => Exited code p'
    end.

Declare Scope script_scope.
Delimit Scope script_scope with script.
Bind Scope script_scope with script.
Notation "x <- c ;; k" := (bind c (fun x => k))
  (at level 100, c at next level, k at level 200, right associativity)
  : script_scope.
Notation "c ;; k" := (bind c (fun _ => k))
  (at level 100, k at level 200, right associativity) : script_scope.
Local Open Scope script_scope.

Definition console_error (message : ustring) : script unit :=
  fun p => Returned tt {| err := err p ++ [message]; out := out p;
                          exitCode := exitCode p; seen := seen p |}.

Definition console_log (message : ustring) : script unit :=
  fun p => Returned tt {| err := err p; out := out p ++ [message];
                          exitCode := exitCode p; seen := seen p |}.

Definition set_exitCode (code : Z) : script unit :=
  fun p => Returned tt {| err := err p; out := out p;
                          exitCode := Some code; seen := seen p |}.

Definition get_exitCode : script (option Z) :=
  fun p => Returned (exitCode p) p.

Definition process_exit (code : Z) : script unit :=
  fun p => Exited code p.

Definition seen_has (key : ustring) : script bool :=
  fun p => Returned (bool_decide (key ∈ seen p)) p.

Definition seen_add (key : ustring) : script unit :=
  fun p => Returned tt {| err := err p; out := out p;
                          exitCode := exitCode p; seen := seen p ∪ {[key]} |}.

(** A conversion that may throw, run as a step of the script. *)
Definition eval {A} (r : js_error + A) : script A :=
  fun p =>
    match r with
    | inl e => Threw e p
    | inr a => Returned a p
    end.

(** [if (!b) { c }] *)
Definition unless (b : bool) (c : script unit) : script unit :=
  if b then ret tt else c.

(** [if (b) { c }] *)
Definition when (b : bool) (c : script unit) : script unit :=
  if b then c else ret tt.

(** [for (const x of l) { body x }] *)
Fixpoint for_of {A} (l : list A) (body : A -> script unit) : script unit :=
  match l with
  | [] => ret tt
  | x :: rest => body x ;; for_of rest body
  end.

(** [l.entries()] *)
Fixpoint entries_from {A} (i : nat) (l : list A) : list (nat * A) :=
  match l with
  | [] => []
  | x :: rest => (i, x) :: entries_from (S i) rest
  end.

Definition entries {A} (l : list A) : list (nat * A) := entries_from 0 l.

(** ** scripts/validate-index.ts *)

Definition fail (message : ustring) : script unit :=
  console_error message ;; set_exitCode 1.

Definition requiredStrings : list ustring :=
  [ustr "id"; ustr "tool"; ustr "version"; ustr "description"; ustr "signer"].

Definition allowedSources : gset ustring :=
  {[ ustr "vendor"; ustr "community"; ustr "internal" ]}.

Section Validator.
Context {number : Type} `{!Runtime number}.

(** The body of the loop over [data.entries()]. *)
Definition entry_body (i : nat) (entry : json number) : script unit :=
  let prefix := ustr "index.json[" ++ index_toString i ++ ustr "]" in
  if js_not entry || negb (js_type_eqb (typeof entry) Tobject) then
    fail (prefix ++ ustr " must be an object")
    (* continue *)
  else
    let record := entry in
    for_of requiredStrings (fun key =>
      unless (isNonEmptyString (get record key))
        (fail (prefix ++ ustr "." ++ key ++ ustr " must be a non-empty string"))) ;;
    unless (assertArrayOfStrings (get record (ustr "frameworks")))
      (fail (prefix ++ ustr ".frameworks must be a non-empty string array")) ;;
    unless (assertArrayOfStrings (get record (ustr "mappingIds")))
      (fail (prefix ++ ustr ".mappingIds must be a non-empty string array")) ;;
    unless (isHttpsUrl (get record (ustr "packUrl")))
      (fail (prefix ++ ustr ".packUrl must be an https URL")) ;;
    unless (isHttpsUrl (get record (ustr "publicKeyUrl")))
      (fail (prefix ++ ustr ".publicKeyUrl must be an https URL")) ;;
    unless (isSha256 (get record (ustr "sha256")))
      (fail (prefix ++ ustr ".sha256 must be a 64-char hex string")) ;;
    source <- eval (String_ (get record (ustr "source"))) ;;
    unless (bool_decide (source ∈ allowedSources))
      (fail (prefix ++ ustr ".source must be one of: vendor, community, internal")) ;;
    unless (isIsoDate (get record (ustr "createdAt")))
      (fail (prefix ++ ustr ".createdAt must be ISO date YYYY-MM-DD")) ;;
    id <- eval (String_ (get record (ustr "id"))) ;;
    version <- eval (String_ (get record (ustr "version"))) ;;
    let key := id ++ ustr "@" ++ version in
    dup <- seen_has key ;;
    when dup (fail (prefix ++ ustr " duplicates id+version " ++ key)) ;;
    seen_add key.

(** Lines 51 to 114: the script from the parsed value on. *)
Definition main (data : json number) : script unit :=
  match data with
  | JArr items =>
      for_of (entries items) (fun '(i, entry) => entry_body i entry) ;;
      code <- get_exitCode ;;
      match code with
      | Some c =>
          if negb (c =? 0)%Z then
            console_error (ustr "Index validation failed.") ;;
            process_exit c
          else console_log (ustr "Index validation passed.")
      | None => console_log (ustr "Index validation passed.")
      end
  | _ =>
      fail (ustr "index.json must be an array of entries") ;;
      process_exit 1
  end.

(** Lines 42 to 49: [JSON.parse(fs.readFileSync(indexPath))] either throws
    an error with a message or yields the parsed value. *)
Inductive loaded : Type :=
  | LoadError (message : ustring)
  | Loaded (data : json number).

Definition validate_index (indexPath : ustring) (input : loaded) : script unit :=
  match input with
  | LoadError message =>
      console_error (ustr "Failed to read " ++ indexPath ++ ustr ": " ++ message) ;;
      process_exit 1
  | Loaded data => main data
  end.

End Validator.

(** ** What the caller of the process observes *)

(** How the process ended.  An exception nobody catches ends it too; the
    runtime (bun, as node) then reports the exception and uses status 1. *)
Inductive termination : Type :=
  | Exit (code : Z)
  | Uncaught (e : js_error).

Definition exit_status (t : termination) : Z :=
  match t with
  | Exit code => code
  | Uncaught _ => 1%Z
  end.

(** [stderr] holds the lines the script itself wrote with [console.error]
    (the runtime's report of an uncaught exception is not among them). *)
Record result : Type := {
  stderr : list ustring;
  stdout : list ustring;
  ended : termination
}.

(** A script that returns ends the process with [process.exitCode], or 0 when
    it was never set. *)
Definition finish (o : outcome unit) : result :=
  match o with
  | Returned _ p =>
      {| stderr := err p; stdout := out p; ended := Exit (default 0%Z (exitCode p)) |}
  | Exited code p =>
      {| stderr := err p; stdout := out p; ended := Exit code |}
  | Threw e p =>
      {| stderr := err p; stdout := out p; ended := Uncaught e |}
  end.

Section Run.
Context {number : Type} `{!Runtime number}.

(** One run of the validator on a parsed index. *)
Definition run (data : json number) : result := finish (main data start).

(** The lines the loop over the entries writes: the per-entry
    diagnostics, without the closing summary line. *)
Definition scan (items : list (json number)) : outcome unit :=
  for_of (entries items) (fun '(i, entry) => entry_body i entry) start.

Definition diagnostics (items : list (json number)) : list ustring :=
  stderr (finish (scan items)).

End Run.

(** ** A runtime for closed examples

    Numbers are the integers (a JSON number written without fraction or
    exponent, below [10^21] in size, whose text is its decimal numeral).
    The date parser takes a month from 01 to 12 and a day from 01 to 31:
    a day past the end of its month is accepted and counted on into the
    next month, so that [2024-02-30] is the first of March.  The URL
    parser is cut down to its first state: it reads the scheme and accepts
    what follows the colon. *)

Module Sample.

Definition Z_toString (z : Z) : ustring :=
  match Z.to_int z with
  | Decimal.Pos u => digits u
  | Decimal.Neg u => 45 :: digits u
  end.

Definition is_alpha (c : N) : bool :=
  (65 <=? c) && (c <=? 90) || (97 <=? c) && (c <=? 122).

Definition to_lower (c : N) : N :=
  if (65 <=? c) && (c <=? 90) then c + 32 else c.

Fixpoint scheme_rest (acc s : ustring) : option ustring :=
  match s with
  | [] => None
  | c :: r =>
      if c =? 58 then Some (rev (58 :: acc))
      else if is_alpha c || is_digit c || (c =? 43) || (c =? 45) || (c =? 46)
           then scheme_rest (to_lower c :: acc) r
           else None
  end.

Definition scheme (s : ustring) : option ustring :=
  match s with
  | c :: r => if is_alpha c then scheme_rest [to_lower c] r else None
  | [] => None
  end.

Definition number_of (ds : ustring) : N :=
  fold_left (fun n d => 10 * n + (d - 48)) ds 0.

(** The calendar date [YYYY-MM-DD] at midnight UTC.  No look is taken at
    the length of the month. *)
Definition date_isNaN (s : ustring) : bool :=
  if negb (date_pattern (take 10 s)
           && bool_decide (drop 10 s = ustr "T00:00:00Z")) then true
  else
    let month := number_of (take 2 (drop 5 s)) in
    let day := number_of (take 2 (drop 8 s)) in
    (month <? 1) || (12 <? month) || (day <? 1) || (31 <? day).

End Sample.

#[export] Instance sample_runtime : Runtime Z := {
  number_falsy z := (z =? 0)%Z;
  Number_toString := Sample.Z_toString;
  URL_protocol := Sample.scheme;
  Date_isNaN := Sample.date_isNaN
}.

(** ** Sample indexes *)

Definition member (name : string) (value : json Z) : ustring * json Z :=
  (ustr name, value).

Definition text (s : string) : json Z := JStr (ustr s).

(** [{"toString": 1}] *)
Definition shadowed_toString : json Z := JObj [member "toString" (JNum 1%Z)].

(** An entry with every field as the schema wants it, but for [createdAt],
    which is given. *)
Definition entry_created_at (createdAt : string) : json Z :=
  JObj [ member "id" (text "acme-pack");
         member "tool" (text "acme");
         member "version" (text "1.0.0");
         member "description" (text "Mappings for acme");
         member "signer" (text "acme-security");
         member "frameworks" (JArr [text "SOC2"]);
         member "mappingIds" (JArr [text "acme-soc2"]);
         member "packUrl" (text "https://example.com/pack.json");
         member "publicKeyUrl" (text "https://example.com/key.pem");
         member "sha256" (JStr (repeat 97 32 ++ repeat 70 32));
         member "source" (text "vendor");
         member "createdAt" (text createdAt) ].

(** An entry with every field as the schema wants it and the given [id]. *)
Definition entry_with_id (id : string) : json Z :=
  JObj [ member "id" (text id);
         member "tool" (text "acme");
         member "version" (text "1.0.0");
         member "description" (text "Mappings for acme");
         member "signer" (text "acme-security");
         member "frameworks" (JArr [text "SOC2"]);
         member "mappingIds" (JArr [text "acme-soc2"]);
         member "packUrl" (text "https://example.com/pack.json");
         member "publicKeyUrl" (text "https://example.com/key.pem");
         member "sha256" (JStr (repeat 97 32 ++ repeat 70 32));
         member "source" (text "community");
         member "createdAt" (text "2024-01-15") ].

(** The ten lines an empty record at position 0 gets before its [source] is
    read. *)
Definition lines_before_source : list ustring :=
  map ustr
    [ "index.json[0].id must be a non-empty string";
      "index.json[0].tool must be a non-empty string";
      "index.json[0].version must be a non-empty string";
      "index.json[0].description must be a non-empty string";
      "index.json[0].signer must be a non-empty string";
      "index.json[0].frameworks must be a non-empty string array";
      "index.json[0].mappingIds must be a non-empty string array";
      "index.json[0].packUrl must be an https URL";
      "index.json[0].publicKeyUrl must be an https URL";
      "index.json[0].sha256 must be a 64-char hex string" ]%string.

(** The process after the loop went through the one entry [{}]. *)
Definition after_empty_record : process :=
  {| err := lines_before_source
            ++ map ustr
                 [ "index.json[0].source must be one of: vendor, community, internal";
                   "index.json[0].createdAt must be ISO date YYYY-MM-DD" ]%string;
     out := [];
     exitCode := Some 1%Z;
     seen := {[ ustr "undefined@undefined" ]} |}.

(** ** scripts/validate-pack.sh

    The wrapper receives its positional parameters and runs one external
    command, [corsair].  What that command prints and how it ends is its own
    business: it is a parameter, a function from its argument vector to
    what the caller observes. *)

Module ValidatePack.

Record observed : Type := {
  sh_stdout : list string;
  sh_stderr : list string;
  sh_status : Z
}.

Section Wrapper.
Variable corsair : list string -> observed.

(** [$1] *)
Definition first_parameter (args : list string) : string :=
  nth 0 args EmptyString.

Definition validate_pack (args : list string) : observed :=
  if (length args <? 1)%nat then
    (* echo "Usage: ..." >&2; exit 2 *)
    {| sh_stdout := [];
       sh_stderr := ["Usage: scripts/validate-pack.sh <pack.json>"%string];
       sh_status := 2 |}
  else
    (* the last command of the script: its status is the script's *)
    corsair ["mappings"; "validate"; "--file"; first_parameter args]%string.

End Wrapper.

End ValidatePack.

(** ** The report, as the specification words it

    The lines of section 4.2 of the specification, step by step, so that
    the script can be compared with them. *)

Definition prefix (i : nat) : ustring :=
  ustr "index.json[" ++ index_toString i ++ ustr "]".

Definition must_be_object (i : nat) : ustring :=
  prefix i ++ ustr " must be an object".

Definition field_message (i : nat) (field what : ustring) : ustring :=
  prefix i ++ ustr "." ++ field ++ what.

Definition duplicate_message (i : nat) (key : ustring) : ustring :=
  prefix i ++ ustr " duplicates id+version " ++ key.

Definition summary_failed : ustring := ustr "Index validation failed.".
Definition summary_passed : ustring := ustr "Index validation passed.".
Definition not_an_array : ustring := ustr "index.json must be an array of entries".

(** A line speaks of entry [i] when it starts with [index.json[i]]. *)
Definition names_entry (i : nat) (m : ustring) : Prop :=
  exists t, m = prefix i ++ t.

(** One check: no line when it holds, its line when it does not. *)
Definition violation (holds : bool) (line : ustring) : list ustring :=
  if holds then [] else [line].

(** [emit lines p]: the process after [fail] was called on each of
    [lines]. *)
Definition emit (lines : list ustring) (p : process) : process :=
  {| err := err p ++ lines;
     out := out p;
     exitCode := match lines with [] => exitCode p | _ :: _ => Some 1%Z end;
     seen := seen p |}.

(** [seen] after [seen.add(key)], if a key was computed. *)
Definition add_key (key : option ustring) (keys : gset ustring) : gset ustring :=
  match key with
  | Some k => keys ∪ {[k]}
  | None => keys
  end.

Definition remember (key : option ustring) (p : process) : process :=
  {| err := err p; out := out p; exitCode := exitCode p;
     seen := add_key key (seen p) |}.

(** A conversion that did not throw. *)
Definition converts {A} (r : js_error + A) : bool :=
  match r with
  | inr _ => true
  | inl _ => false
  end.

(** What became of one entry: all its checks were made, giving lines and
    perhaps a key to record; or a conversion threw after some lines. *)
Inductive report : Type :=
  | Done (lines : list ustring) (key : option ustring)
  | Raised (lines : list ustring).

Section Report.
Context {number : Type} `{!Runtime number}.

(** A value that passes the test of line 61: an object or an array. *)
Definition is_object (entry : json number) : bool :=
  match entry with
  | JObj _ | JArr _ => true
  | _ => false
  end.

(** Steps 2 to 5: required strings, frameworks, mappingIds, packUrl,
    publicKeyUrl, sha256. *)
Definition checks_before_source (i : nat) (record : json number) : list ustring :=
  flat_map (fun key =>
              violation (isNonEmptyString (get record key))
                (field_message i key (ustr " must be a non-empty string")))
    requiredStrings
  ++ violation (assertArrayOfStrings (get record (ustr "frameworks")))
       (field_message i (ustr "frameworks") (ustr " must be a non-empty string array"))
  ++ violation (assertArrayOfStrings (get record (ustr "mappingIds")))
       (field_message i (ustr "mappingIds") (ustr " must be a non-empty string array"))
  ++ violation (isHttpsUrl (get record (ustr "packUrl")))
       (field_message i (ustr "packUrl") (ustr " must be an https URL"))
  ++ violation (isHttpsUrl (get record (ustr "publicKeyUrl")))
       (field_message i (ustr "publicKeyUrl") (ustr " must be an https URL"))
  ++ violation (isSha256 (get record (ustr "sha256")))
       (field_message i (ustr "sha256") (ustr " must be a 64-char hex string")).

(** Steps 6 and 7, given the text of [source]. *)
Definition checks_from_source (i : nat) (record : json number) (source : ustring)
  : list ustring :=
  violation (bool_decide (source ∈ allowedSources))
    (field_message i (ustr "source") (ustr " must be one of: vendor, community, internal"))
  ++ violation (isIsoDate (get record (ustr "createdAt")))
       (field_message i (ustr "createdAt") (ustr " must be ISO date YYYY-MM-DD")).

(** Step 8: the identity key of a record. *)
Definition identity_key (record : json number) : js_error + ustring :=
  match String_ (get record (ustr "id")), String_ (get record (ustr "version")) with
  | inr id, inr version => inr (id ++ ustr "@" ++ version)
  | inl e, _ => inl e
  | _, inl e => inl e
  end.

Definition entry_report (seen0 : gset ustring) (i : nat) (entry : json number) : report :=
  if negb (is_object entry) then Done [must_be_object i] None
  else
    match String_ (get entry (ustr "source")) with
    | inl _ => Raised (checks_before_source i entry)
    | inr source =>
        let lines := checks_before_source i entry ++ checks_from_source i entry source in
        match identity_key entry with
        | inl _ => Raised lines
        | inr key =>
            Done (lines ++ violation (negb (bool_decide (key ∈ seen0)))
                              (duplicate_message i key))
                 (Some key)
        end
    end.

(** No conversion of this entry throws: it fails the object test, or its
    [source], [id] and [version] all convert to text. *)
Definition safe (entry : json number) : bool :=
  negb (is_object entry)
  || converts (String_ (get entry (ustr "source")))
     && converts (identity_key entry).

(** The key this entry leaves in [seen], if any. *)
Definition recorded_key (entry : json number) : option ustring :=
  if is_object entry && converts (String_ (get entry (ustr "source"))) then
    match identity_key entry with
    | inr key => Some key
    | inl _ => None
    end
  else None.

(** The lines of this entry. *)
Definition entry_lines (seen0 : gset ustring) (i : nat) (entry : json number)
  : list ustring :=
  match entry_report seen0 i entry with
  | Done lines _ => lines
  | Raised lines => lines
  end.

(** [seen] after a list of entries was gone through. *)
Fixpoint seen_after (seen0 : gset ustring) (items : list (json number))
  : gset ustring :=
  match items with
  | [] => seen0
  | entry :: rest => seen_after (add_key (recorded_key entry) seen0) rest
  end.

(** The whole report of a list of entries none of which throws: the lines
    of each entry in turn, each entry seeing the keys of those before it. *)
Fixpoint expected (seen0 : gset ustring) (i : nat) (items : list (json number))
  : list ustring :=
  match items with
  | [] => []
  | entry :: rest =>
      entry_lines seen0 i entry
      ++ expected (add_key (recorded_key entry) seen0) (S i) rest
  end.

(** The loop over the entries, taken up at position [i] in the process
    state [p]. *)
Definition resume (p : process) (i : nat) (items : list (json number))
  : outcome unit :=
  for_of (entries_from i items) (fun '(i, entry) => entry_body i entry) p.

End Report.

(** The process state an outcome carries. *)
Definition state_of {A} (o : outcome A) : process :=
  match o with
  | Returned _ p => p
  | Threw _ p => p
  | Exited _ p => p
  end.

(** ** The checks of one record, as a table

    The twelve field checks in the order of the script, each with the
    field it names, the rest of its line, and whether it holds. *)

Record check : Type := {
  check_field : ustring;
  check_what : ustring;
  check_holds : bool
}.

Definition check_line (i : nat) (c : check) : ustring :=
  field_message i (check_field c) (check_what c).

Definition check_name (c : check) : ustring := check_field c ++ check_what c.

Section Table.
Context {number : Type} `{!Runtime number}.

(** Lines 67 to 92. *)
Definition table_before_source (record : json number) : list check :=
  map (fun key =>
         {| check_field := key;
            check_what := ustr " must be a non-empty string";
            check_holds := isNonEmptyString (get record key) |})
    requiredStrings
  ++ [ {| check_field := ustr "frameworks";
          check_what := ustr " must be a non-empty string array";
          check_holds := assertArrayOfStrings (get record (ustr "frameworks")) |};
       {| check_field := ustr "mappingIds";
          check_what := ustr " must be a non-empty string array";
          check_holds := assertArrayOfStrings (get record (ustr "mappingIds")) |};
       {| check_field := ustr "packUrl";
          check_what := ustr " must be an https URL";
          check_holds := isHttpsUrl (get record (ustr "packUrl")) |};
       {| check_field := ustr "publicKeyUrl";
          check_what := ustr " must be an https URL";
          check_holds := isHttpsUrl (get record (ustr "publicKeyUrl")) |};
       {| check_field := ustr "sha256";
          check_what := ustr " must be a 64-char hex string";
          check_holds := isSha256 (get record (ustr "sha256")) |} ].

(** Lines 94 to 100, given the text of [source]. *)
Definition table_from_source (record : json number) (source : ustring) : list check :=
  [ {| check_field := ustr "source";
       check_what := ustr " must be one of: vendor, community, internal";
       check_holds := bool_decide (source ∈ allowedSources) |};
    {| check_field := ustr "createdAt";
       check_what := ustr " must be ISO date YYYY-MM-DD";
       check_holds := isIsoDate (get record (ustr "createdAt")) |} ].

(** [String(record.source)] is one of the allowed sources (line 94); a
    conversion that throws allows nothing. *)
Definition source_allowed (record : json number) : bool :=
  match String_ (get record (ustr "source")) with
  | inr source => bool_decide (source ∈ allowedSources)
  | inl _ => false
  end.

(** An entry with nothing to report but, perhaps, a duplicate: it passes the
    object test and each of the twelve field checks. *)
Definition passes_field_checks (entry : json number) : bool :=
  is_object entry
  && forallb (fun key => isNonEmptyString (get entry key)) requiredStrings
  && assertArrayOfStrings (get entry (ustr "frameworks"))
  && assertArrayOfStrings (get entry (ustr "mappingIds"))
  && isHttpsUrl (get entry (ustr "packUrl"))
  && isHttpsUrl (get entry (ustr "publicKeyUrl"))
  && isSha256 (get entry (ustr "sha256"))
  && source_allowed entry
  && isIsoDate (get entry (ustr "createdAt")).

(** The whole script, from the outcome of reading and parsing the file on. *)
Definition run_file (indexPath : ustring) (input : loaded) : result :=
  finish (validate_index indexPath input start).

End Table.

(** * Properties *)

(** ** The steps of a script *)

Lemma emit_nil p : emit [] p = p.
Proof. destruct p; unfold emit; cbn. by rewrite app_nil_r. Qed.

Lemma emit_emit l1 l2 p : emit l2 (emit l1 p) = emit (l1 ++ l2) p.
Proof.
  unfold emit; cbn. rewrite app_assoc.
  by destruct l1, l2.
Qed.

Lemma bind_returned {A B} (c : script A) (k : A -> script B) p a p' :
  c p = Returned a p' -> (x <- c ;; k x) p = k a p'.
Proof. unfold bind. by intros ->. Qed.

Lemma fail_emit line p : fail line p = Returned tt (emit [line] p).
Proof. reflexivity. Qed.

Lemma unless_fail holds line p :
  unless holds (fail line) p = Returned tt (emit (violation holds line) p).
Proof. destruct holds; cbn; [by rewrite emit_nil | reflexivity]. Qed.

Lemma when_fail b line p :
  when b (fail line) p = Returned tt (emit (violation (negb b) line) p).
Proof. destruct b; cbn; [reflexivity | by rewrite emit_nil]. Qed.

Lemma for_of_unless {A} (holds : A -> bool) (line : A -> ustring) l p :
  for_of l (fun x => unless (holds x) (fail (line x))) p
  = Returned tt (emit (flat_map (fun x => violation (holds x) (line x)) l) p).
Proof.
  revert p. induction l as [|x l IH]; intros p; cbn [for_of flat_map].
  - by rewrite emit_nil.
  - erewrite bind_returned by apply unless_fail.
    by rewrite IH, emit_emit.
Qed.

Section Script.
Context {number : Type} `{!Runtime number}.
Implicit Types (entry : json number) (items : list (json number)).

Lemma object_test entry :
  js_not entry || negb (js_type_eqb (typeof entry) Tobject)
  = negb (is_object entry).
Proof. by destruct entry as [|[]| | | |]; cbn; rewrite ?orb_true_r. Qed.

(** The script's loop body does to the process what the report says. *)
Lemma entry_body_report i entry p :
  entry_body i entry p
  = match entry_report (seen p) i entry with
    | Done lines key => Returned tt (remember key (emit lines p))
    | Raised lines => Threw TypeError (emit lines p)
    end.
Proof.
  unfold entry_body, entry_report. rewrite object_test.
  destruct (is_object entry); cbn [negb];
    [| rewrite fail_emit; f_equal; by destruct p].
  erewrite bind_returned by apply for_of_unless.
  do 5 (erewrite bind_returned by apply unless_fail).
  rewrite !emit_emit.
  destruct (String_ (get entry (ustr "source"))) as [[]|source].
  { reflexivity. }
  erewrite bind_returned by reflexivity.
  do 2 (erewrite bind_returned by apply unless_fail).
  rewrite !emit_emit.
  unfold identity_key.
  destruct (String_ (get entry (ustr "id"))) as [[]|id].
  { unfold checks_before_source, checks_from_source, field_message, prefix.
    cbn [bind eval]. by rewrite <- !app_assoc. }
  erewrite bind_returned by reflexivity.
  destruct (String_ (get entry (ustr "version"))) as [[]|version].
  { unfold checks_before_source, checks_from_source, field_message, prefix.
    cbn [bind eval]. by rewrite <- !app_assoc. }
  erewrite bind_returned by reflexivity.
  erewrite bind_returned by reflexivity.
  erewrite bind_returned by apply when_fail.
  unfold seen_add, remember, add_key. rewrite emit_emit. cbn [seen emit].
  unfold checks_before_source, checks_from_source, field_message,
    duplicate_message, prefix.
  by rewrite <- !app_assoc.
Qed.

End Script.

(** ** The loop over the entries *)

Lemma stderr_finish (o : outcome unit) : stderr (finish o) = err (state_of o).
Proof. by destruct o. Qed.

Section Loop.
Context {number : Type} `{!Runtime number}.
Implicit Types (entry : json number) (items : list (json number)).

Lemma report_safe seen0 i entry :
  safe entry = true ->
  entry_report seen0 i entry
  = Done (entry_lines seen0 i entry) (recorded_key entry).
Proof.
  unfold safe, recorded_key, entry_lines, entry_report.
  destruct (is_object entry); cbn [negb]; [|done].
  destruct (String_ (get entry (ustr "source"))); [done|].
  by destruct (identity_key entry).
Qed.

Lemma report_unsafe seen0 i entry :
  safe entry = false ->
  entry_report seen0 i entry = Raised (entry_lines seen0 i entry).
Proof.
  unfold safe, entry_lines, entry_report.
  destruct (is_object entry); cbn [negb]; [|done].
  destruct (String_ (get entry (ustr "source"))); [done|].
  by destruct (identity_key entry).
Qed.

Lemma resume_nil p i : resume p i [] = Returned tt p.
Proof. reflexivity. Qed.

Lemma resume_cons p i entry items :
  resume p i (entry :: items)
  = match entry_report (seen p) i entry with
    | Done lines key => resume (remember key (emit lines p)) (S i) items
    | Raised lines => Threw TypeError (emit lines p)
    end.
Proof.
  unfold resume; cbn [entries_from for_of]. unfold bind at 1.
  rewrite entry_body_report. by destruct (entry_report (seen p) i entry).
Qed.

Lemma resume_safe_cons p i entry items :
  safe entry = true ->
  resume p i (entry :: items)
  = resume (remember (recorded_key entry) (emit (entry_lines (seen p) i entry) p))
      (S i) items.
Proof. intros Hs. by rewrite resume_cons, report_safe. Qed.

Lemma resume_unsafe_cons p i entry items :
  safe entry = false ->
  resume p i (entry :: items)
  = Threw TypeError (emit (entry_lines (seen p) i entry) p).
Proof. intros Hs. by rewrite resume_cons, report_unsafe. Qed.

(** The loop never ends the process by itself. *)
Lemma resume_not_exited p i items code p' :
  resume p i items <> Exited code p'.
Proof.
  revert p i. induction items as [|entry items IH]; intros p i; [done|].
  rewrite resume_cons. destruct (entry_report (seen p) i entry); [apply IH|done].
Qed.

(** Going through [xs ++ ys] is going through [xs] and, if that returned,
    going on with [ys]. *)
Lemma resume_app p i xs ys :
  resume p i (xs ++ ys)
  = match resume p i xs with
    | Returned _ p' => resume p' (i + length xs) ys
    | other => other
    end.
Proof.
  revert p i. induction xs as [|x xs IH]; intros p i; cbn [app length].
  - by rewrite resume_nil, Nat.add_0_r.
  - rewrite !resume_cons. destruct (entry_report (seen p) i x); [|done].
    by rewrite IH, Nat.add_succ_r.
Qed.

(** Entries that do not throw: the loop returns, having written the
    expected lines and recorded the expected keys. *)
Lemma resume_safe p i items :
  Forall (fun entry => safe entry = true) items ->
  resume p i items
  = Returned tt {| err := err p ++ expected (seen p) i items;
                   out := out p;
                   exitCode := match expected (seen p) i items with
                               | [] => exitCode p
                               | _ :: _ => Some 1%Z
                               end;
                   seen := seen_after (seen p) items |}.
Proof.
  intros Hsafe. revert p i.
  induction Hsafe as [|entry items Hs _ IH]; intros p i.
  - rewrite resume_nil. destruct p; cbn. by rewrite app_nil_r.
  - rewrite resume_safe_cons by done. rewrite IH. cbn.
    f_equal. f_equal; [by rewrite app_assoc|].
    destruct (entry_lines (seen p) i entry); cbn; [done|].
    by destruct (expected _ _ _).
Qed.

End Loop.

(** ** The lines name their entry *)

Lemma digits_inj u v : digits u = digits v -> u = v.
Proof.
  revert v. induction u; intros [] Heq; cbn in Heq;
    try discriminate; try reflexivity;
    f_equal; apply IHu; congruence.
Qed.

Lemma index_toString_inj i j : index_toString i = index_toString j -> i = j.
Proof.
  intros Heq%digits_inj.
  rewrite <- (DecimalNat.Unsigned.of_to i), <- (DecimalNat.Unsigned.of_to j).
  by rewrite Heq.
Qed.

Lemma digits_no_bracket u : Forall (fun c => c <> 93) (digits u).
Proof. induction u; cbn; constructor; (done || lia). Qed.

Lemma bracket_split (d d' r r' : ustring) :
  Forall (fun c => c <> 93) d -> Forall (fun c => c <> 93) d' ->
  d ++ 93 :: r = d' ++ 93 :: r' -> d = d'.
Proof.
  intros Hd. revert d'. induction Hd as [|c d Hc _ IH]; intros d' Hd' Heq.
  - destruct Hd' as [|c' d' Hc' _]; [done|]. cbn in Heq. congruence.
  - destruct Hd' as [|c' d' Hc' Hd']; cbn in Heq; [congruence|].
    injection Heq as -> Heq. f_equal. by apply IH.
Qed.

Lemma prefix_inj i j t t' : prefix i ++ t = prefix j ++ t' -> i = j.
Proof.
  unfold prefix. rewrite <- !app_assoc. intros Heq%app_inv_head.
  apply index_toString_inj.
  eapply bracket_split; [apply digits_no_bracket..|exact Heq].
Qed.

Lemma duplicate_not_field i key field what :
  duplicate_message i key <> field_message i field what.
Proof.
  unfold duplicate_message, field_message. intros Heq%app_inv_head.
  discriminate Heq.
Qed.

Lemma duplicate_not_object i key : duplicate_message i key <> must_be_object i.
Proof.
  unfold duplicate_message, must_be_object. intros Heq%app_inv_head.
  discriminate Heq.
Qed.

Lemma duplicate_inj i key key' :
  duplicate_message i key = duplicate_message i key' -> key = key'.
Proof.
  unfold duplicate_message. intros Heq%app_inv_head. by apply app_inv_head in Heq.
Qed.

Lemma elem_of_violation holds (line m : ustring) :
  m ∈ violation holds line <-> holds = false /\ m = line.
Proof.
  destruct holds; cbn.
  - rewrite elem_of_nil. split; [done | by intros []].
  - rewrite list_elem_of_singleton. split; [done | by intros []].
Qed.

Lemma elem_of_flat_map {A B} (f : A -> list B) (l : list A) (y : B) :
  y ∈ flat_map f l <-> exists x, x ∈ l /\ y ∈ f x.
Proof.
  rewrite list_elem_of_In, in_flat_map.
  by setoid_rewrite list_elem_of_In.
Qed.

Section Lines.
Context {number : Type} `{!Runtime number}.
Implicit Types (entry : json number) (items : list (json number)).

Lemma checks_before_source_fields i entry m :
  m ∈ checks_before_source i entry -> exists field what, m = field_message i field what.
Proof.
  unfold checks_before_source.
  rewrite !elem_of_app, elem_of_flat_map.
  setoid_rewrite elem_of_violation.
  intros [(key & _ & _ & ->)|[[_ ->]|[[_ ->]|[[_ ->]|[[_ ->]|[_ ->]]]]]]; eauto.
Qed.

Lemma checks_from_source_fields i entry source m :
  m ∈ checks_from_source i entry source ->
  exists field what, m = field_message i field what.
Proof.
  unfold checks_from_source. rewrite !elem_of_app.
  setoid_rewrite elem_of_violation. intros [[_ ->]|[_ ->]]; eauto.
Qed.

(** Every line of an entry names that entry. *)
Lemma entry_lines_name seen0 i entry m :
  m ∈ entry_lines seen0 i entry -> names_entry i m.
Proof.
  assert (Hf : forall field what, names_entry i (field_message i field what)).
  { intros field what. unfold names_entry, field_message. eauto. }
  unfold entry_lines, entry_report.
  destruct (is_object entry); cbn [negb].
  2:{ intros ->%list_elem_of_singleton. unfold names_entry, must_be_object. eauto. }
  destruct (String_ (get entry (ustr "source"))) as [?|source].
  { intros (?&?&->)%checks_before_source_fields. apply Hf. }
  destruct (identity_key entry) as [?|key]; rewrite ?elem_of_app.
  - intros [(?&?&->)%checks_before_source_fields
           |(?&?&->)%checks_from_source_fields]; apply Hf.
  - intros [[(?&?&->)%checks_before_source_fields
            |(?&?&->)%checks_from_source_fields]|[_ ->]%elem_of_violation];
      [apply Hf..|].
    unfold names_entry, duplicate_message. eauto.
Qed.

(** When an entry's lines hold a duplicate line: its key was computed,
    is the key of the line, and had been seen. *)
Lemma entry_lines_duplicate seen0 i entry key :
  duplicate_message i key ∈ entry_lines seen0 i entry
  <-> recorded_key entry = Some key /\ key ∈ seen0.
Proof.
  unfold entry_lines, recorded_key, entry_report.
  destruct (is_object entry); cbn [negb].
  2:{ rewrite list_elem_of_singleton. split; [|by intros []].
      by intros ?%duplicate_not_object. }
  destruct (String_ (get entry (ustr "source"))) as [?|source].
  { split; [|by intros []].
    intros (?&?&?%duplicate_not_field)%checks_before_source_fields. done. }
  destruct (identity_key entry) as [?|k]; rewrite ?elem_of_app.
  - split; [|by intros []].
    intros [(?&?&?%duplicate_not_field)%checks_before_source_fields
           |(?&?&?%duplicate_not_field)%checks_from_source_fields]; done.
  - rewrite elem_of_violation, negb_false_iff, bool_decide_eq_true. split.
    + intros [[(?&?&?%duplicate_not_field)%checks_before_source_fields
              |(?&?&?%duplicate_not_field)%checks_from_source_fields]
             |[Hin ->%duplicate_inj]]; done.
    + intros [[= ->] Hin]. by right.
Qed.

(** The state the loop leaves: it has added lines, each naming one of the
    entries gone through, set the exit code if it added any, and changed
    nothing else but [seen]. *)
Lemma resume_lines p i items :
  exists lines keys,
    state_of (resume p i items)
    = {| err := err p ++ lines; out := out p;
         exitCode := match lines with [] => exitCode p | _ :: _ => Some 1%Z end;
         seen := keys |}
    /\ Forall (fun m => exists j, (i <= j < i + length items)%nat /\ names_entry j m)
         lines.
Proof.
  revert p i. induction items as [|entry items IH]; intros p i.
  - exists [], (seen p). destruct p; cbn. by rewrite app_nil_r.
  - assert (Hl : Forall (fun m => exists j, (i <= j < i + length (entry :: items))%nat
                                /\ names_entry j m) (entry_lines (seen p) i entry)).
    { apply Forall_forall. intros m Hm%entry_lines_name. exists i. cbn. split; [lia|done]. }
    rewrite resume_cons. unfold entry_lines in Hl.
    destruct (entry_report (seen p) i entry) as [l k|l]; [|by exists l, (seen p)].
    destruct (IH (remember k (emit l p)) (S i)) as (more & keys & -> & Hmore).
    exists (l ++ more), keys. cbn. split.
    + f_equal; [by rewrite app_assoc|]. by destruct l, more.
    + apply Forall_app. split; [done|].
      eapply Forall_impl; [exact Hmore|]. cbn. intros m (j & ? & ?). exists j.
      split; [lia|done].
Qed.

Lemma elem_of_seen_after seen0 items k :
  k ∈ seen_after seen0 items
  <-> k ∈ seen0 \/ exists entry, entry ∈ items /\ recorded_key entry = Some k.
Proof.
  revert seen0. induction items as [|entry items IH]; intros seen0; cbn.
  - split; [by left|]. intros [?|(?&?%elem_of_nil&?)]; done.
  - rewrite IH. setoid_rewrite elem_of_cons. unfold add_key.
    destruct (recorded_key entry) as [k'|] eqn:Hk.
    + rewrite elem_of_union, elem_of_singleton. split.
      * intros [[?| ->]|(e & ? & ?)]; eauto 6.
      * intros [?|(e & [->|?] & ?)]; [eauto..|]; [|eauto 6].
        left. right. congruence.
    + split.
      * intros [?|(e & ? & ?)]; eauto 6.
      * intros [?|(e & [->|?] & ?)]; [eauto| congruence |eauto 6].
Qed.

End Lines.

(** ** One run *)

Section Runs.
Context {number : Type} `{!Runtime number}.
Implicit Types (entry : json number) (items : list (json number)).

Lemma scan_resume items : scan items = resume start 0 items.
Proof. reflexivity. Qed.

Lemma diagnostics_scan items : diagnostics items = err (state_of (scan items)).
Proof. apply stderr_finish. Qed.

(** After the loop: no line and no exit code, or some lines and exit
    code 1; nothing on [stdout]. *)
Lemma scan_state items :
  exists keys,
    state_of (scan items)
    = {| err := diagnostics items; out := [];
         exitCode := match diagnostics items with [] => None | _ :: _ => Some 1%Z end;
         seen := keys |}.
Proof.
  rewrite diagnostics_scan.
  destruct (resume_lines start 0 items) as (lines & keys & Hst & _).
  exists keys. rewrite scan_resume, Hst. done.
Qed.

(** The run, from what the loop did. *)
Lemma run_array items :
  run (JArr items)
  = match scan items with
    | Threw e _ =>
        {| stderr := diagnostics items; stdout := []; ended := Uncaught e |}
    | _ =>
        match diagnostics items with
        | [] => {| stderr := []; stdout := [summary_passed]; ended := Exit 0 |}
        | _ :: _ => {| stderr := diagnostics items ++ [summary_failed];
                       stdout := []; ended := Exit 1 |}
        end
    end.
Proof.
  destruct (scan_state items) as (keys & Hst).
  unfold run, main. unfold bind at 1.
  change (for_of (entries items) _ start) with (scan items).
  destruct (scan items) as [[] p|e p|code p] eqn:Hscan; cbn in Hst; subst p.
  - destruct (diagnostics items); reflexivity.
  - reflexivity.
  - by apply resume_not_exited in Hscan.
Qed.

(** Entries none of which throws: the loop returns and has written the
    expected lines. *)
Lemma scan_safe items :
  Forall (fun entry => safe entry = true) items ->
  exists p, scan items = Returned tt p
            /\ diagnostics items = expected ∅ 0 items
            /\ seen p = seen_after ∅ items.
Proof.
  intros Hsafe. rewrite diagnostics_scan, scan_resume, (resume_safe _ _ _ Hsafe).
  eexists. split; [reflexivity|]. done.
Qed.

(** The report around position [j], when no entry before it throws:
    first the lines of the entries before, then the lines of entry [j]
    given the keys recorded before, then lines of later entries. *)
Lemma diagnostics_at items j entry :
  items !! j = Some entry ->
  Forall (fun e => safe e = true) (take j items) ->
  exists before after,
    diagnostics items
    = before ++ entry_lines (seen_after ∅ (take j items)) j entry ++ after
    /\ Forall (fun m => exists j', (j' < j)%nat /\ names_entry j' m) before
    /\ Forall (fun m => exists j', (j < j')%nat /\ names_entry j' m) after.
Proof.
  intros Hj Hsafe.
  assert (Hlen : length (take j items) = j).
  { apply length_take_le, Nat.lt_le_incl, (lookup_lt_Some _ _ _ Hj). }
  assert (Hd : diagnostics items
               = err (state_of (resume start 0
                                  (take j items ++ entry :: drop (S j) items)))).
  { by rewrite diagnostics_scan, scan_resume, take_drop_middle. }
  rewrite resume_app, (resume_safe _ _ _ Hsafe), Hlen in Hd.
  cbn [err seen start app Nat.add] in Hd.
  destruct (resume_lines start 0 (take j items)) as (l0 & k0 & Hst0 & Hl0).
  rewrite (resume_safe _ _ _ Hsafe) in Hst0. cbn in Hst0.
  injection Hst0 as Hl _ _. rewrite <- Hl in Hl0. rewrite Hlen in Hl0.
  assert (Hbefore : Forall (fun m => exists j', (j' < j)%nat /\ names_entry j' m)
                      (expected ∅ 0 (take j items))).
  { eapply Forall_impl; [exact Hl0|]. cbn. intros m (j' & ? & ?). exists j'.
    split; [lia|done]. }
  exists (expected ∅ 0 (take j items)).
  rewrite resume_cons in Hd. cbn [seen] in Hd. unfold entry_lines.
  destruct (entry_report _ j entry) as [l k|l].
  - match type of Hd with context [resume ?p (S j) ?rest] =>
      destruct (resume_lines p (S j) rest) as (more & keys & Hst & Hmore) end.
    rewrite Hst in Hd. cbn in Hd.
    exists more. split; [by rewrite Hd, app_assoc|]. split; [done|].
    eapply Forall_impl; [exact Hmore|]. cbn. intros m (j' & ? & ?). exists j'.
    split; [lia|done].
  - exists []. cbn in Hd. by rewrite Hd, app_nil_r.
Qed.

(** A duplicate line for position [j] is in the report exactly when entry
    [j] left a key and an earlier entry had left the same key. *)
Lemma duplicate_at items j entry key :
  items !! j = Some entry ->
  Forall (fun e => safe e = true) (take j items) ->
  duplicate_message j key ∈ diagnostics items
  <-> recorded_key entry = Some key
      /\ exists i earlier, (i < j)%nat /\ items !! i = Some earlier
                           /\ recorded_key earlier = Some key.
Proof.
  intros Hj Hsafe.
  destruct (diagnostics_at _ _ _ Hj Hsafe) as (before & after & -> & Hb & Ha).
  assert (Hname : names_entry j (duplicate_message j key)).
  { unfold names_entry, duplicate_message. eauto. }
  assert (Hseen : key ∈ seen_after ∅ (take j items)
                  <-> exists i earlier, (i < j)%nat /\ items !! i = Some earlier
                                        /\ recorded_key earlier = Some key).
  { rewrite elem_of_seen_after. setoid_rewrite elem_of_take. split.
    - intros [?%not_elem_of_empty|(e & (i & ? & ?) & ?)]; [done|]. eauto.
    - intros (i & e & ? & ? & ?). right. eauto. }
  rewrite !elem_of_app, entry_lines_duplicate, Hseen. split; [|tauto].
  intros [Hin|[?|Hin]]; [|done|].
  - rewrite Forall_forall in Hb. destruct (Hb _ Hin) as (j' & Hlt & [t Ht]).
    destruct Hname as [t' Ht']. rewrite Ht' in Ht. apply prefix_inj in Ht. lia.
  - rewrite Forall_forall in Ha. destruct (Ha _ Hin) as (j' & Hlt & [t Ht]).
    destruct Hname as [t' Ht']. rewrite Ht' in Ht. apply prefix_inj in Ht. lia.
Qed.

End Runs.

(** ** Reaching an entry *)

Section Reach.
Context {number : Type} `{!Runtime number}.
Implicit Types (entry : json number) (items : list (json number)).

(** The loop returns only if no entry throws, and then [seen] holds the
    keys of the entries. *)
Lemma resume_returned p i items p' :
  resume p i items = Returned tt p' ->
  Forall (fun entry => safe entry = true) items
  /\ seen p' = seen_after (seen p) items.
Proof.
  revert p i. induction items as [|entry items IH]; intros p i.
  - rewrite resume_nil. by intros [= <-].
  - destruct (safe entry) eqn:Hs.
    + rewrite resume_safe_cons by done. intros [Hall Hseen]%IH.
      split; [by constructor|]. by rewrite Hseen.
    + by rewrite resume_unsafe_cons.
Qed.

(** The loop has gone through the first [j] entries and stands before
    entry [j]. *)
Lemma scan_reaches items j entry p :
  items !! j = Some entry ->
  scan (take j items) = Returned tt p ->
  scan items = resume p j (entry :: drop (S j) items).
Proof.
  intros Hj Hscan.
  assert (Hlen : length (take j items) = j).
  { apply length_take_le, Nat.lt_le_incl, (lookup_lt_Some _ _ _ Hj). }
  transitivity (scan (take j items ++ entry :: drop (S j) items)).
  { by rewrite take_drop_middle. }
  rewrite scan_resume, resume_app, <- scan_resume, Hscan. by rewrite Hlen.
Qed.

Lemma seen_reached items j p k :
  scan (take j items) = Returned tt p ->
  k ∈ seen p
  <-> exists i earlier, (i < j)%nat /\ items !! i = Some earlier
                        /\ recorded_key earlier = Some k.
Proof.
  rewrite scan_resume. intros [_ ->]%resume_returned.
  rewrite elem_of_seen_after. setoid_rewrite elem_of_take. split.
  - intros [?%not_elem_of_empty|(e & (i & ? & ?) & ?)]; [done|]. eauto.
  - intros (i & e & ? & ? & ?). right. eauto.
Qed.

End Reach.

(** ** Keys *)

Section Keys.
Context {number : Type} `{!Runtime number}.
Implicit Types (entry : json number) (items : list (json number)).

(** An entry leaves a key exactly when it passes the object test, nothing
    in it throws, and the key is its identity key. *)
Lemma recorded_key_spec entry k :
  recorded_key entry = Some k
  <-> is_object entry = true /\ safe entry = true /\ identity_key entry = inr k.
Proof.
  unfold recorded_key, safe, entry_report.
  destruct (is_object entry); cbn [negb]; [|by split; [|intros (?&?&?)]].
  destruct (String_ (get entry (ustr "source"))); [by split; [|intros (?&?&?)]|].
  destruct (identity_key entry); [by split; [|intros (?&?&?)]|].
  split; [by intros [= ->]|]. by intros (_&_&[= ->]).
Qed.

(** The identity key reads only [id] and [version]. *)
Lemma identity_key_same first second :
  get first (ustr "id") = get second (ustr "id") ->
  get first (ustr "version") = get second (ustr "version") ->
  identity_key first = identity_key second.
Proof. unfold identity_key. by intros -> ->. Qed.

Lemma safe_object_key entry :
  is_object entry = true -> safe entry = true ->
  exists k, identity_key entry = inr k.
Proof.
  unfold safe, entry_report. intros ->. cbn [negb].
  destruct (String_ (get entry (ustr "source"))); [done|].
  destruct (identity_key entry); [done|]. eauto.
Qed.

(** Keys of string ids and versions: equal keys agree on the id exactly
    when they agree on the version. *)
Lemma identity_key_strings first second (a b a' b' : ustring) :
  get first (ustr "id") = Some (JStr a) ->
  get first (ustr "version") = Some (JStr b) ->
  get second (ustr "id") = Some (JStr a') ->
  get second (ustr "version") = Some (JStr b') ->
  identity_key first = identity_key second ->
  (a = a' <-> b = b').
Proof.
  unfold identity_key. intros -> -> -> ->. cbn. intros [= Heq]. split.
  - intros ->. apply app_inv_head in Heq. by injection Heq.
  - intros ->. by apply app_inv_tail in Heq.
Qed.

End Keys.

(** * The claims of the specification *)

Section Claims.
Context {number : Type} `{!Runtime number}.
Implicit Types (entry : json number) (items : list (json number)).

(** C10.  Appending entries to an index leaves the lines of the original
    entries as they were: the run on the longer index is the run on the
    original one, continued (if it returned) with the new entries from the
    state and position it had reached; so the lines of the original index
    are a prefix of the lines of the longer one. *)
Theorem appended_entries_extend_report items extra :
  scan (items ++ extra)
  = match scan items with
    | Returned _ p => resume p (length items) extra
    | other => other
    end
  /\ exists more, diagnostics (items ++ extra) = diagnostics items ++ more.
Proof.
  assert (Happ : scan (items ++ extra)
                 = match scan items with
                   | Returned _ p => resume p (length items) extra
                   | other => other
                   end).
  { by rewrite !scan_resume, resume_app. }
  split; [exact Happ|].
  rewrite !diagnostics_scan, Happ.
  destruct (scan items) as [[] p|e p|code p]; cbn [state_of].
  - destruct (resume_lines p (length items) extra) as (more & keys & -> & _).
    by exists more.
  - exists []. by rewrite app_nil_r.
  - exists []. by rewrite app_nil_r.
Qed.

(** C6.  A parsed value that is not an array ends the run at once with
    status 1; the only line written is the one about the shape of the
    index, and no entry is looked at. *)
Theorem not_an_array_is_fatal (data : json number) :
  Array_isArray data = false ->
  run data
  = {| stderr := [ustr "index.json must be an array of entries"];
       stdout := [];
       ended := Exit 1 |}.
Proof. by destruct data. Qed.

(** C1, amended.  An entry that is [null], a boolean, a number or a string,
    and that the loop reaches, gets exactly one line, that it must be an
    object; no field of it is checked and no key is recorded: the loop
    goes on to the next entry in the state it was in, with that one line
    added. *)
Theorem scalar_entry_one_line items j entry p :
  items !! j = Some entry ->
  is_object entry = false ->
  scan (take j items) = Returned tt p ->
  scan items = resume (emit [must_be_object j] p) (S j) (drop (S j) items)
  /\ diagnostics (take (S j) items)
     = diagnostics (take j items) ++ [must_be_object j].
Proof.
  intros Hj Hobj Hscan. split.
  - rewrite (scan_reaches _ _ _ _ Hj Hscan), resume_cons.
    unfold entry_report. by rewrite Hobj.
  - rewrite (take_S_r _ _ _ Hj), !diagnostics_scan.
    assert (Hlen : length (take j items) = j).
    { apply length_take_le, Nat.lt_le_incl, (lookup_lt_Some _ _ _ Hj). }
    rewrite scan_resume, resume_app, <- scan_resume, Hscan, Hlen, resume_cons.
    unfold entry_report. rewrite Hobj. done.
Qed.

(** C3, amended.  Let the loop reach entry [j].  If the entry fails the
    object test it is skipped: one line, no key computed or recorded.  If it
    passes the object test (an object or an array), the duplicate check is
    made whatever the field checks found: when [source], [id] and [version]
    convert to text, the loop writes the lines of the field checks, then
    the duplicate line if the key [id@version] is in [seen], records the
    key and goes on; and the key is in [seen] exactly when an earlier
    entry that passed the object test had the same key. *)
Theorem duplicate_check_after_field_checks items j entry p :
  items !! j = Some entry ->
  scan (take j items) = Returned tt p ->
  (is_object entry = false ->
   scan items = resume (emit [must_be_object j] p) (S j) (drop (S j) items))
  /\ (forall source key,
        is_object entry = true ->
        String_ (get entry (ustr "source")) = inr source ->
        identity_key entry = inr key ->
        scan items
        = resume
            (remember (Some key)
               (emit (checks_before_source j entry
                      ++ checks_from_source j entry source
                      ++ violation (negb (bool_decide (key ∈ seen p)))
                           (duplicate_message j key))
                  p))
            (S j) (drop (S j) items)
        /\ (key ∈ seen p
            <-> exists i earlier, (i < j)%nat /\ items !! i = Some earlier
                                  /\ is_object earlier = true
                                  /\ identity_key earlier = inr key)).
Proof.
  intros Hj Hscan. split.
  { intros Hobj. rewrite (scan_reaches _ _ _ _ Hj Hscan), resume_cons.
    unfold entry_report. by rewrite Hobj. }
  intros source key Hobj Hsrc Hkey. split.
  - rewrite (scan_reaches _ _ _ _ Hj Hscan), resume_cons.
    unfold entry_report. rewrite Hobj, Hsrc, Hkey. cbn [negb].
    by rewrite <- app_assoc.
  - rewrite (seen_reached _ _ _ _ Hscan).
    rewrite scan_resume in Hscan. apply resume_returned in Hscan as [Hsafe _].
    rewrite Forall_forall in Hsafe.
    split; intros (i & e & Hlt & Hi & Hk); exists i, e.
    + apply recorded_key_spec in Hk as (? & ? & ?). done.
    + destruct Hk as [? ?]. split_and!; [done..|].
      apply recorded_key_spec. split_and!; [done| |done].
      apply Hsafe, elem_of_take. eauto.
Qed.

(** C2, amended.  Let entry [j] be reached, with nothing thrown up to and
    including it.  If it and an earlier entry are objects with the same
    [id] value and the same [version] value, the report holds the
    duplicate line of position [j].  A duplicate line of position [j] is in
    the report only if an earlier object entry has the same key
    [id@version] as entry [j]: whether a change of [id] or [version]
    removes the line is decided by the converted keys.  For string ids and
    versions, two entries that differ in exactly one of the two have
    different keys. *)
Theorem duplicate_line_of_a_pair items j second :
  items !! j = Some second ->
  Forall (fun e => safe e = true) (take (S j) items) ->
  (forall i first,
      (i < j)%nat -> items !! i = Some first ->
      is_object first = true -> is_object second = true ->
      get first (ustr "id") = get second (ustr "id") ->
      get first (ustr "version") = get second (ustr "version") ->
      exists key, identity_key second = inr key
                  /\ duplicate_message j key ∈ diagnostics items)
  /\ (forall key,
        duplicate_message j key ∈ diagnostics items ->
        is_object second = true /\ identity_key second = inr key
        /\ exists i first, (i < j)%nat /\ items !! i = Some first
                            /\ is_object first = true
                            /\ identity_key first = inr key)
  /\ (forall first a b a' b',
        get first (ustr "id") = Some (JStr a) ->
        get first (ustr "version") = Some (JStr b) ->
        get second (ustr "id") = Some (JStr a') ->
        get second (ustr "version") = Some (JStr b') ->
        identity_key first = identity_key second ->
        (a = a' <-> b = b')).
Proof.
  intros Hj Hsafe. rewrite (take_S_r _ _ _ Hj) in Hsafe.
  apply Forall_app in Hsafe as [Hbefore Hsecond].
  rewrite Forall_singleton in Hsecond. split_and!.
  - intros i first Hlt Hi Hobj1 Hobj2 Hid Hversion.
    destruct (safe_object_key _ Hobj2 Hsecond) as [key Hkey].
    exists key. split; [done|].
    apply (duplicate_at _ _ _ _ Hj Hbefore). split.
    + by apply recorded_key_spec.
    + exists i, first. split_and!; [done..|].
      apply recorded_key_spec. split_and!; [done| |].
      * rewrite Forall_forall in Hbefore. apply Hbefore, elem_of_take. eauto.
      * by rewrite (identity_key_same _ _ Hid Hversion).
  - intros key [Hk (i & first & Hlt & Hi & Hk1)]%(duplicate_at _ _ _ _ Hj Hbefore).
    apply recorded_key_spec in Hk as (? & ? & ?).
    apply recorded_key_spec in Hk1 as (? & ? & ?).
    split_and!; [done..|]. by exists i, first.
  - intros first a b a' b'. apply identity_key_strings.
Qed.

(** *** What holds of every run in which no conversion throws *)

Lemma diagnostics_in_stderr items m :
  m ∈ diagnostics items -> m ∈ stderr (run (JArr items)).
Proof.
  intros Hm. rewrite run_array.
  assert (Hne : match diagnostics items with
                | [] => {| stderr := []; stdout := [summary_passed]; ended := Exit 0 |}
                | _ :: _ => {| stderr := diagnostics items ++ [summary_failed];
                               stdout := []; ended := Exit 1 |}
                end
                = {| stderr := diagnostics items ++ [summary_failed];
                     stdout := []; ended := Exit 1 |}).
  { destruct (diagnostics items); [by apply elem_of_nil in Hm|done]. }
  destruct (scan items); rewrite ?Hne; cbn; rewrite ?elem_of_app; auto.
Qed.

Lemma diagnostics_fail_run items m :
  m ∈ diagnostics items -> exit_status (ended (run (JArr items))) = 1%Z.
Proof.
  intros Hm. rewrite run_array.
  destruct (scan items); [|done|];
    (destruct (diagnostics items); [by apply elem_of_nil in Hm|done]).
Qed.

(** The run ends with an uncaught exception exactly when some entry
    throws. *)
Lemma run_uncaught items :
  ended (run (JArr items)) = Uncaught TypeError
  <-> exists entry, entry ∈ items /\ safe entry = false.
Proof.
  rewrite run_array. split.
  - destruct (scan items) as [[] p|e p|code p] eqn:Hscan.
    + by destruct (diagnostics items).
    + intros _. rewrite scan_resume in Hscan.
      destruct (decide (Forall (fun e => safe e = true) items)) as [Hall|Hnot].
      * by rewrite (resume_safe _ _ _ Hall) in Hscan.
      * apply not_Forall_Exists in Hnot; [|apply _].
        apply Exists_exists in Hnot as (entry & ? & ?%not_true_is_false). eauto.
    + by destruct (diagnostics items).
  - intros (entry & Hin & Hs).
    destruct (scan items) as [[] p|[] p|code p] eqn:Hscan; [|done|].
    + rewrite scan_resume in Hscan. apply resume_returned in Hscan as [Hall _].
      rewrite Forall_forall in Hall. rewrite (Hall _ Hin) in Hs. done.
    + by apply resume_not_exited in Hscan.
Qed.

(** The positive part of C4: an object entry that the loop reaches and
    whose [source] converts to text, with a [createdAt] of the right
    pattern that the date constructor refuses, gets the [createdAt] line,
    and the run ends with status 1. *)
Theorem refused_date_is_reported items j entry s source :
  items !! j = Some entry ->
  Forall (fun e => safe e = true) (take j items) ->
  String_ (get entry (ustr "source")) = inr source ->
  get entry (ustr "createdAt") = Some (JStr s) ->
  date_pattern s = true ->
  Date_isNaN (s ++ ustr "T00:00:00Z") = true ->
  field_message j (ustr "createdAt") (ustr " must be ISO date YYYY-MM-DD")
    ∈ stderr (run (JArr items))
  /\ exit_status (ended (run (JArr items))) = 1%Z.
Proof.
  intros Hj Hsafe Hsrc Hdate Hpat Hnan.
  assert (Hobj : is_object entry = true) by by destruct entry.
  assert (Hiso : isIsoDate (get entry (ustr "createdAt")) = false).
  { rewrite Hdate. unfold isIsoDate. rewrite Hpat, Hnan.
    by destruct (isNonEmptyString _). }
  assert (Hline : field_message j (ustr "createdAt") (ustr " must be ISO date YYYY-MM-DD")
                  ∈ diagnostics items).
  { destruct (diagnostics_at _ _ _ Hj Hsafe) as (before & after & -> & _).
    rewrite !elem_of_app. right. left.
    assert (Hin : field_message j (ustr "createdAt") (ustr " must be ISO date YYYY-MM-DD")
                  ∈ checks_from_source j entry source).
    { unfold checks_from_source. rewrite Hiso, elem_of_app. right.
      by apply list_elem_of_singleton. }
    unfold entry_lines, entry_report. rewrite Hobj, Hsrc. cbn [negb].
    destruct (identity_key entry); rewrite !elem_of_app; auto. }
  split; [by apply diagnostics_in_stderr | by eapply diagnostics_fail_run].
Qed.

(** The positive part of C5: when no entry throws, the run writes
    exactly the lines the specification lists, entry by entry and check
    by check, then the summary; and it passes when there is no line. *)
Theorem report_is_complete_and_ordered items :
  Forall (fun e => safe e = true) items ->
  run (JArr items)
  = match expected ∅ 0 items with
    | [] => {| stderr := []; stdout := [ustr "Index validation passed."];
               ended := Exit 0 |}
    | _ :: _ => {| stderr := expected ∅ 0 items ++ [ustr "Index validation failed."];
                   stdout := []; ended := Exit 1 |}
    end.
Proof.
  intros Hsafe. rewrite run_array.
  destruct (scan_safe _ Hsafe) as (p & -> & -> & _). done.
Qed.

(** The positive part of C8: the run ends with status 0 or 1 when no
    entry throws, and that is the only way it can end otherwise than by an
    uncaught [TypeError]. *)
Theorem run_ends_or_throws (data : json number) :
  ended (run data) = Exit 0 \/ ended (run data) = Exit 1
  \/ (ended (run data) = Uncaught TypeError
      /\ exists items entry, data = JArr items /\ entry ∈ items /\ safe entry = false).
Proof.
  destruct data as [| | | |items|]; try (right; left; reflexivity).
  destruct (ended (run (JArr items))) as [code|[]] eqn:Hend.
  - rewrite run_array in Hend.
    destruct (scan items); [|done|];
      (destruct (diagnostics items); injection Hend as <-; auto).
  - right. right. split; [done|].
    apply run_uncaught in Hend as (entry & ? & ?). eauto.
Qed.

(** The positive part of C9: two object entries without [id] and
    [version], the second reached with nothing thrown up to and including
    it: the second gets the duplicate line of the key
    [undefined@undefined]. *)
Theorem entries_without_identity_collide items i j first second :
  (i < j)%nat -> items !! i = Some first -> items !! j = Some second ->
  is_object first = true -> is_object second = true ->
  get first (ustr "id") = None -> get first (ustr "version") = None ->
  get second (ustr "id") = None -> get second (ustr "version") = None ->
  Forall (fun e => safe e = true) (take (S j) items) ->
  duplicate_message j (ustr "undefined@undefined") ∈ diagnostics items.
Proof.
  intros Hlt Hi Hj Hobj1 Hobj2 Hid1 Hv1 Hid2 Hv2 Hsafe.
  rewrite (take_S_r _ _ _ Hj) in Hsafe.
  apply Forall_app in Hsafe as [Hbefore Hsecond].
  rewrite Forall_singleton in Hsecond.
  assert (Hkey : forall e, get e (ustr "id") = None -> get e (ustr "version") = None ->
                           identity_key e = inr (ustr "undefined@undefined")).
  { intros e He1 He2. unfold identity_key. by rewrite He1, He2. }
  apply (duplicate_at _ _ _ _ Hj Hbefore). split.
  - apply recorded_key_spec. auto.
  - exists i, first. split_and!; [done..|].
    apply recorded_key_spec. split_and!; [done| |auto].
    rewrite Forall_forall in Hbefore. apply Hbefore, elem_of_take. eauto.
Qed.

End Claims.

(** C7.  Without an argument the wrapper prints its usage line on the error
    stream and ends with status 2; with one argument or more it runs
    [corsair mappings validate --file] on the first one, and what that
    command prints and returns is what the wrapper prints and returns. *)
Theorem wrapper_usage_or_delegation (corsair : list string -> ValidatePack.observed) :
  ValidatePack.validate_pack corsair []
  = {| ValidatePack.sh_stdout := [];
       ValidatePack.sh_stderr := ["Usage: scripts/validate-pack.sh <pack.json>"%string];
       ValidatePack.sh_status := 2 |}
  /\ forall (first : string) (others : list string),
       ValidatePack.validate_pack corsair (first :: others)
       = corsair ["mappings"; "validate"; "--file"; first]%string.
Proof. split; reflexivity. Qed.

(** * Closed examples, in [sample_runtime] *)

(** The index [[]] passes, in every runtime. *)
Lemma empty_index_passes {number : Type} `{!Runtime number} :
  run (JArr (@nil (json number)))
  = {| stderr := []; stdout := [ustr "Index validation passed."]; ended := Exit 0 |}.
Proof. reflexivity. Qed.

(** One well-formed entry, [source: "vendor"], [createdAt: "2024-01-15"]:
    status 0, the success line, nothing on the error stream. *)
Lemma well_formed_index_passes :
  run (JArr [entry_created_at "2024-01-15"])
  = {| stderr := []; stdout := [ustr "Index validation passed."]; ended := Exit 0 |}.
Proof. vm_compute. reflexivity. Qed.

(** C1 as stated fails on an array entry: [[[]]].  The entry [[]] is not a
    JSON object, yet it passes the test of line 61 ([typeof [] === "object"])
    and gets the twelve lines of the field checks, not the one line. *)
Lemma array_entry_gets_field_checks :
  stderr (run (JArr [JArr []]))
  = lines_before_source
    ++ map ustr
         [ "index.json[0].source must be one of: vendor, community, internal";
           "index.json[0].createdAt must be ISO date YYYY-MM-DD";
           "Index validation failed." ]%string
  /\ must_be_object 0 ∉ stderr (run (JArr [@JArr Z []])).
Proof.
  split; [vm_compute; reflexivity|].
  apply (bool_decide_unpack _). vm_compute. exact I.
Qed.

Lemma scalar_entry_one_line_witness :
  [@JNull Z] !! 0%nat = Some JNull
  /\ scan (take 0 [@JNull Z]) = Returned tt start
  /\ scan [@JNull Z] = resume (emit [must_be_object 0] start) 1 []
  /\ diagnostics (take 1 [@JNull Z])
     = diagnostics (take 0 [@JNull Z]) ++ [must_be_object 0].
Proof.
  split; [reflexivity|]. split; [reflexivity|].
  apply (scalar_entry_one_line [JNull] 0 JNull start); reflexivity.
Defined.

(** C2 as stated fails when a changed value converts to the same text:
    [[{"id":"1","version":"1"}, {"id":1,"version":"1"}]].  The ids differ,
    the string ["1"] and the number [1], and the second entry is still
    reported as a duplicate. *)
Lemma number_and_string_ids_collide :
  get (JObj [member "id" (text "1"); member "version" (text "1")]) (ustr "id")
  <> get (JObj [member "id" (JNum 1%Z); member "version" (text "1")]) (ustr "id")
  /\ ustr "index.json[1] duplicates id+version 1@1"
     ∈ stderr (run (JArr [ JObj [member "id" (text "1"); member "version" (text "1")];
                           JObj [member "id" (JNum 1%Z); member "version" (text "1")] ])).
Proof.
  split; [by vm_compute|].
  apply (bool_decide_unpack _). vm_compute. exact I.
Qed.

Lemma duplicate_line_of_a_pair_witness :
  let entry := JObj [member "id" (text "a"); member "version" (text "1")] in
  [entry; entry] !! 1%nat = Some entry
  /\ Forall (fun e => safe e = true) (take 2 [entry; entry])
  /\ exists key, identity_key entry = inr key
                 /\ duplicate_message 1 key ∈ diagnostics [entry; entry].
Proof.
  set (entry := JObj [member "id" (text "a"); member "version" (text "1")]).
  assert (Hj : [entry; entry] !! 1%nat = Some entry) by reflexivity.
  assert (Hsafe : Forall (fun e => safe e = true) (take 2 [entry; entry])).
  { repeat constructor. }
  split; [exact Hj|]. split; [exact Hsafe|].
  destruct (duplicate_line_of_a_pair [entry; entry] 1 entry Hj Hsafe) as (Hpair & _ & _).
  apply (Hpair 0%nat entry); (lia || reflexivity).
Defined.

(** C3 as stated fails on an entry that fails the object test:
    [[{}, 5]].  Read as a record, [5] has the key [undefined@undefined], which
    the entry [{}] before it has left in [seen]; but [5] is skipped at line
    63 and gets the one line only, no duplicate line. *)
Lemma skipped_entry_gets_no_duplicate_check :
  identity_key (@JNum Z 5%Z) = inr (ustr "undefined@undefined")
  /\ recorded_key (@JObj Z []) = Some (ustr "undefined@undefined")
  /\ stderr (run (JArr [JObj []; JNum 5%Z]))
     = lines_before_source
       ++ map ustr
            [ "index.json[0].source must be one of: vendor, community, internal";
              "index.json[0].createdAt must be ISO date YYYY-MM-DD";
              "index.json[1] must be an object";
              "Index validation failed." ]%string.
Proof. split_and!; vm_compute; reflexivity. Qed.

Lemma duplicate_check_after_field_checks_witness :
  scan (take 1 [@JObj Z []; JObj []]) = Returned tt after_empty_record
  /\ scan [@JObj Z []; JObj []]
     = resume
         (remember (Some (ustr "undefined@undefined"))
            (emit (checks_before_source 1 (@JObj Z [])
                   ++ checks_from_source 1 (@JObj Z []) (ustr "undefined")
                   ++ [duplicate_message 1 (ustr "undefined@undefined")])
               after_empty_record))
         2 [].
Proof.
  assert (Hscan : scan (take 1 [@JObj Z []; JObj []]) = Returned tt after_empty_record).
  { vm_compute. reflexivity. }
  split; [exact Hscan|].
  destruct (duplicate_check_after_field_checks
              [JObj []; JObj []] 1 (JObj []) after_empty_record) as [_ Hobj];
    [reflexivity | exact Hscan |].
  destruct (Hobj (ustr "undefined") (ustr "undefined@undefined")) as [Hrun _];
    [reflexivity..|].
  exact Hrun.
Defined.

Lemma not_an_array_is_fatal_witness :
  run (@JObj Z [])
  = {| stderr := [ustr "index.json must be an array of entries"];
       stdout := [];
       ended := Exit 1 |}.
Proof. apply (not_an_array_is_fatal (JObj [])). reflexivity. Defined.

(** C8 at [[{"source": {"toString": 1}}]].  [String(record.source)] throws:
    the run writes the ten lines of the checks made before, then ends
    with an uncaught [TypeError], not by the script's own exit. *)
Lemma shadowed_toString_throws :
  ToString shadowed_toString = inl TypeError
  /\ run (JArr [JObj [member "source" shadowed_toString]])
     = {| stderr := lines_before_source; stdout := []; ended := Uncaught TypeError |}.
Proof. split; vm_compute; reflexivity. Qed.

(** C4 at [[{"source": {"toString": 1}, "createdAt": "2024-13-40"}]].
    The date is of the right pattern and is refused by the date
    constructor (there is no month 13), but the run ends at line 94, before
    line 98 looks at [createdAt]: no line names [createdAt]. *)
Lemma refused_date_never_looked_at :
  date_pattern (ustr "2024-13-40") = true
  /\ Date_isNaN (ustr "2024-13-40T00:00:00Z") = true
  /\ run (JArr [JObj [ member "source" shadowed_toString;
                       member "createdAt" (text "2024-13-40") ]])
     = {| stderr := lines_before_source; stdout := []; ended := Uncaught TypeError |}.
Proof. split_and!; vm_compute; reflexivity. Qed.

(** C5 at [[{"id": {"toString": 1}}, {"createdAt": "yesterday"}]].  The
    first entry gets its twelve lines and the run ends when its key is
    computed (line 102); the eleven missing fields and the malformed
    [createdAt] of the second entry are never reported. *)
Lemma report_cut_short :
  run (JArr [ JObj [member "id" shadowed_toString];
              JObj [member "createdAt" (text "yesterday")] ])
  = {| stderr := lines_before_source
                 ++ map ustr
                      [ "index.json[0].source must be one of: vendor, community, internal";
                        "index.json[0].createdAt must be ISO date YYYY-MM-DD" ]%string;
       stdout := [];
       ended := Uncaught TypeError |}.
Proof. vm_compute. reflexivity. Qed.

(** C9 at [[{"source": {"toString": 1}}, {}]].  Neither entry has an [id]
    or a [version].  The run ends at the first entry's [source] (line 94),
    so the second entry gets no line at all, and no duplicate line. *)
Lemma second_entry_never_reached :
  get (JObj [member "source" shadowed_toString]) (ustr "id") = None
  /\ get (JObj [member "source" shadowed_toString]) (ustr "version") = None
  /\ run (JArr [JObj [member "source" shadowed_toString]; JObj []])
     = {| stderr := lines_before_source; stdout := []; ended := Uncaught TypeError |}.
Proof. split_and!; vm_compute; reflexivity. Qed.

(** [createdAt: "2024-13-40"] in an otherwise well-formed entry. *)
Lemma refused_date_is_reported_witness :
  run (JArr [entry_created_at "2024-13-40"])
  = {| stderr := map ustr [ "index.json[0].createdAt must be ISO date YYYY-MM-DD";
                            "Index validation failed." ]%string;
       stdout := [];
       ended := Exit 1 |}
  /\ field_message 0 (ustr "createdAt") (ustr " must be ISO date YYYY-MM-DD")
       ∈ stderr (run (JArr [entry_created_at "2024-13-40"]))
  /\ exit_status (ended (run (JArr [entry_created_at "2024-13-40"]))) = 1%Z.
Proof.
  split; [vm_compute; reflexivity|].
  apply (refused_date_is_reported [entry_created_at "2024-13-40"] 0
           (entry_created_at "2024-13-40") (ustr "2024-13-40") (ustr "vendor"));
    try (vm_compute; reflexivity).
  constructor.
Defined.

(** The end-to-end example of the specification, [createdAt: "2024-02-30"]
    in an otherwise well-formed entry: the date constructor takes the date
    for the first of March, and the index passes. *)
Lemma rolled_over_date_passes :
  Date_isNaN (ustr "2024-02-30T00:00:00Z") = false
  /\ run (JArr [entry_created_at "2024-02-30"])
     = {| stderr := []; stdout := [ustr "Index validation passed."]; ended := Exit 0 |}.
Proof. split; vm_compute; reflexivity. Qed.

Lemma report_is_complete_and_ordered_witness :
  run (JArr [@JArr Z []; JNull; JObj []])
  = {| stderr := expected ∅ 0 [@JArr Z []; JNull; JObj []]
                 ++ [ustr "Index validation failed."];
       stdout := [];
       ended := Exit 1 |}.
Proof.
  apply (report_is_complete_and_ordered [JArr []; JNull; JObj []]).
  repeat constructor.
Defined.

Lemma entries_without_identity_collide_witness :
  duplicate_message 1 (ustr "undefined@undefined") ∈ diagnostics [@JObj Z []; JObj []].
Proof.
  apply (entries_without_identity_collide [JObj []; JObj []] 0 1 (JObj []) (JObj []));
    try reflexivity; [lia | repeat constructor].
Defined.

(** * More of the script *)

(** ** The predicates *)

Lemma trimStart_nil s :
  trimStart s = [] <-> Forall (fun c => is_white_space c = true) s.
Proof.
  induction s as [|c s IH]; cbn; [done|].
  destruct (is_white_space c) eqn:Hc.
  - rewrite IH. split; [by constructor | by inversion 1].
  - split; [done|]. inversion 1; congruence.
Qed.

Lemma trimStart_head s c r : trimStart s = c :: r -> is_white_space c = false.
Proof.
  induction s as [|c' s IH]; cbn; [done|].
  destruct (is_white_space c') eqn:Hc; [done|]. by intros [= <- _].
Qed.

(** [trim] leaves nothing exactly of a string of white space. *)
Lemma trim_nil s : trim s = [] <-> Forall (fun c => is_white_space c = true) s.
Proof.
  unfold trim, trimEnd. rewrite <- trimStart_nil.
  split; [|by intros ->].
  intros Hrev. apply (f_equal (@rev N)) in Hrev. rewrite rev_involutive in Hrev.
  cbn in Hrev. apply trimStart_nil in Hrev. apply Forall_rev in Hrev.
  rewrite rev_involutive in Hrev.
  destruct (trimStart s) as [|c r] eqn:Hs; [done|].
  apply trimStart_head in Hs. inversion Hrev; congruence.
Qed.

Lemma hex_not_white_space c : is_hex c = true -> is_white_space c = false.
Proof.
  unfold is_hex, is_digit, is_white_space.
  rewrite !orb_true_iff, !andb_true_iff, !N.leb_le. intros Hc.
  repeat (apply orb_false_intro); rewrite ?andb_false_iff, ?N.leb_gt, ?N.eqb_neq; lia.
Qed.

Lemma digit_not_white_space c : is_digit c = true -> is_white_space c = false.
Proof. intros Hc. apply hex_not_white_space. unfold is_hex. by rewrite Hc, orb_true_r. Qed.

Section Predicates.
Context {number : Type} `{!Runtime number}.
Implicit Types (value : option (json number)).

(** [isNonEmptyString]: a string with a code unit that is not white
    space. *)
Lemma isNonEmptyString_spec value :
  isNonEmptyString value = true
  <-> exists s, value = Some (JStr s)
                /\ exists c, c ∈ s /\ is_white_space c = false.
Proof.
  assert (Hs : forall s : ustring,
             (0 <? length (trim s))%nat = true
             <-> exists c, c ∈ s /\ is_white_space c = false).
  { intros s. rewrite Nat.ltb_lt. split.
    - intros Hlen.
      destruct (decide (Forall (fun c => is_white_space c = true) s)) as [Hall|Hnot].
      + apply trim_nil in Hall. rewrite Hall in Hlen. cbn in Hlen. lia.
      + apply not_Forall_Exists in Hnot; [|apply _].
        apply Exists_exists in Hnot as (c & ? & ?%not_true_is_false). eauto.
    - intros (c & Hin & Hc). destruct (trim s) eqn:Htrim; [|cbn; lia].
      apply trim_nil in Htrim. rewrite Forall_forall in Htrim.
      rewrite (Htrim _ Hin) in Hc. done. }
  destruct value as [[| | |s| |]|]; unfold isNonEmptyString;
    try (split; [done | by intros (? & ? & _)]).
  rewrite Hs. split; [eauto|]. by intros (? & [= <-] & ?).
Qed.

Lemma starts_not_blank (s : ustring) c r :
  s = c :: r -> is_white_space c = false ->
  isNonEmptyString (Some (@JStr number s)) = true.
Proof.
  intros -> Hc. apply isNonEmptyString_spec. eexists. split; [done|].
  exists c. split; [apply list_elem_of_here | done].
Qed.

(** [isSha256]: a string of exactly 64 hexadecimal digits; the test that
    it is not blank adds nothing to the pattern. *)
Lemma isSha256_spec value :
  isSha256 value = true
  <-> exists s, value = Some (JStr s) /\ length s = 64%nat
                /\ forall c, c ∈ s -> is_hex c = true.
Proof.
  unfold isSha256, sha256_pattern. rewrite andb_true_iff.
  destruct value as [[| | |s| |]|];
    try (split; [by intros [_ ?] | by intros (? & ? & _)]).
  rewrite andb_true_iff, Nat.eqb_eq, forallb_forall.
  setoid_rewrite <- list_elem_of_In. split.
  - intros [_ [? ?]]. eauto.
  - intros (? & [= <-] & Hlen & Hhex). split; [|done].
    destruct s as [|c r]; [done|].
    eapply starts_not_blank; [done|]. apply hex_not_white_space, Hhex, list_elem_of_here.
Qed.

(** [isIsoDate]: a string of the date pattern that the date constructor
    accepts; the test that it is not blank adds nothing to the pattern. *)
Lemma isIsoDate_spec value :
  isIsoDate value = true
  <-> exists s, value = Some (JStr s) /\ date_pattern s = true
                /\ Date_isNaN (s ++ ustr "T00:00:00Z") = false.
Proof.
  unfold isIsoDate.
  destruct value as [[| | |s| |]|];
    try (split; [done | by intros (? & ? & _)]).
  destruct (date_pattern s) eqn:Hpat.
  - assert (Hne : isNonEmptyString (Some (@JStr number s)) = true).
    { unfold date_pattern in Hpat.
      destruct s as [|y1 [|y2 [|y3 [|y4 [|h1 [|m1 [|m2 [|h2 [|d1 [|d2 [|]]]]]]]]]]];
        try discriminate Hpat.
      eapply starts_not_blank; [done|]. apply digit_not_white_space.
      do 9 (apply andb_true_iff in Hpat as [Hpat _]). exact Hpat. }
    rewrite Hne. cbn. rewrite negb_true_iff. split; [eauto|].
    by intros (? & [= <-] & _ & ?).
  - destruct (isNonEmptyString _); cbn;
      (split; [done | intros (? & [= <-] & ? & _); congruence]).
Qed.

(** [isHttpsUrl]: a string that is not blank, that [new URL] accepts, and
    whose protocol is ["https:"]; a URL that does not parse is refused, not
    thrown on. *)
Lemma isHttpsUrl_spec value :
  isHttpsUrl value = true
  <-> exists s, value = Some (JStr s)
                /\ (exists c, c ∈ s /\ is_white_space c = false)
                /\ URL_protocol s = Some (ustr "https:").
Proof.
  unfold isHttpsUrl.
  destruct (isNonEmptyString value) eqn:Hne; cbn [negb].
  - apply isNonEmptyString_spec in Hne as (s & -> & Hc).
    destruct (URL_protocol s) as [protocol|] eqn:Hurl.
    + rewrite bool_decide_eq_true. split.
      * intros ->. exists s. by rewrite Hurl.
      * intros (? & [= <-] & _ & Hp). congruence.
    + split; [done|]. intros (? & [= <-] & _ & Hp). congruence.
  - split; [done|]. intros (s & -> & Hc & _).
    assert (isNonEmptyString (Some (@JStr number s)) = true) by (apply isNonEmptyString_spec; eauto).
    congruence.
Qed.

(** [assertArrayOfStrings]: an array that is not empty, each of whose
    elements is a string that is not blank. *)
Lemma assertArrayOfStrings_spec value :
  assertArrayOfStrings value = true
  <-> exists elements, value = Some (JArr elements) /\ elements <> []
                       /\ forall v, v ∈ elements ->
                                    isNonEmptyString (Some v) = true.
Proof.
  unfold assertArrayOfStrings.
  destruct value as [[| | | |elements|]|];
    try (split; [done | by intros (? & ? & _)]).
  rewrite andb_true_iff, Nat.ltb_lt, forallb_forall.
  setoid_rewrite <- list_elem_of_In. split.
  - intros [Hlen ?]. exists elements. split_and!; [done| |done].
    intros ->. cbn in Hlen. lia.
  - intros (? & [= <-] & Hne & ?). split; [|done].
    destruct elements; [done | cbn; lia].
Qed.

End Predicates.

(** ** The lines of the field checks *)

Lemma field_message_inj i field what field' what' :
  field_message i field what = field_message i field' what' ->
  field ++ what = field' ++ what'.
Proof.
  unfold field_message. intros Heq%app_inv_head. by apply app_inv_head in Heq.
Qed.

Lemma names_entry_field i field what : names_entry i (field_message i field what).
Proof. unfold names_entry, field_message. eauto. Qed.

Lemma NoDup_map_inj {A B} (f : A -> B) (l : list A) x y :
  NoDup (map f l) -> x ∈ l -> y ∈ l -> f x = f y -> x = y.
Proof.
  induction l as [|a l IH]; cbn; [by intros _ ?%elem_of_nil|].
  rewrite NoDup_cons, !elem_of_cons. intros [Hnot Hnd] [->|Hx] [->|Hy] Heq;
    [done| | |by apply IH].
  - destruct Hnot. rewrite Heq. apply list_elem_of_In, in_map, list_elem_of_In, Hy.
  - destruct Hnot. rewrite <- Heq. apply list_elem_of_In, in_map, list_elem_of_In, Hx.
Qed.

(** In a table whose checks have different names, the line of a check is
    written exactly when the check fails. *)
Lemma table_line i (rows : list check) c :
  NoDup (map check_name rows) -> c ∈ rows ->
  check_line i c ∈ flat_map (fun c => violation (check_holds c) (check_line i c)) rows
  <-> check_holds c = false.
Proof.
  intros Hnd Hc. rewrite elem_of_flat_map. setoid_rewrite elem_of_violation. split.
  - intros (c' & Hc' & Hfalse & Heq%field_message_inj).
    by rewrite (NoDup_map_inj check_name rows c c' Hnd Hc Hc' Heq).
  - intros Hfalse. by exists c.
Qed.

Section FieldLines.
Context {number : Type} `{!Runtime number}.
Implicit Types (entry : json number) (items : list (json number)).

Lemma checks_before_source_table i entry :
  checks_before_source i entry
  = flat_map (fun c => violation (check_holds c) (check_line i c))
      (table_before_source entry).
Proof.
  unfold checks_before_source, table_before_source, requiredStrings.
  cbn [map flat_map app check_holds]. unfold check_line. cbn [check_field check_what].
  by rewrite <- !app_assoc, app_nil_r.
Qed.

Lemma checks_from_source_table i entry source :
  checks_from_source i entry source
  = flat_map (fun c => violation (check_holds c) (check_line i c))
      (table_from_source entry source).
Proof.
  unfold checks_from_source, table_from_source.
  cbn [map flat_map app check_holds]. unfold check_line. cbn [check_field check_what].
  by rewrite app_nil_r.
Qed.

Lemma table_names_distinct entry source :
  NoDup (map check_name (table_before_source entry ++ table_from_source entry source)).
Proof. apply (bool_decide_unpack _). vm_compute. exact I. Qed.

Lemma table_before_names_distinct entry :
  NoDup (map check_name (table_before_source entry)).
Proof. apply (bool_decide_unpack _). vm_compute. exact I. Qed.

(** The line of a check made before [source] is read is among the lines
    of an entry exactly when the entry passes the object test and the check
    fails. *)
Lemma entry_lines_before_source seen0 i entry c :
  is_object entry = true ->
  c ∈ table_before_source entry ->
  check_line i c ∈ entry_lines seen0 i entry <-> check_holds c = false.
Proof.
  intros Hobj Hc. unfold entry_lines, entry_report. rewrite Hobj. cbn [negb].
  destruct (String_ (get entry (ustr "source"))) as [?|source].
  { rewrite checks_before_source_table.
    apply table_line; [apply table_before_names_distinct | done]. }
  assert (Hrows : check_line i c
                  ∈ checks_before_source i entry ++ checks_from_source i entry source
                  <-> check_holds c = false).
  { rewrite checks_before_source_table, checks_from_source_table, <- flat_map_app.
    apply table_line; [apply table_names_distinct|]. apply elem_of_app. by left. }
  destruct (identity_key entry) as [?|key]; [done|].
  rewrite elem_of_app, Hrows, elem_of_violation. split; [|by left].
  intros [?|[_ Heq]]; [done|]. symmetry in Heq.
  by apply duplicate_not_field in Heq.
Qed.

(** The same for the two checks made once [source] was read. *)
Lemma entry_lines_from_source seen0 i entry source c :
  is_object entry = true ->
  String_ (get entry (ustr "source")) = inr source ->
  c ∈ table_from_source entry source ->
  check_line i c ∈ entry_lines seen0 i entry <-> check_holds c = false.
Proof.
  intros Hobj Hsrc Hc. unfold entry_lines, entry_report. rewrite Hobj, Hsrc. cbn [negb].
  assert (Hrows : check_line i c
                  ∈ checks_before_source i entry ++ checks_from_source i entry source
                  <-> check_holds c = false).
  { rewrite checks_before_source_table, checks_from_source_table, <- flat_map_app.
    apply table_line; [apply table_names_distinct|]. apply elem_of_app. by right. }
  destruct (identity_key entry) as [?|key]; [done|].
  rewrite elem_of_app, Hrows, elem_of_violation. split; [|by left].
  intros [?|[_ Heq]]; [done|]. symmetry in Heq.
  by apply duplicate_not_field in Heq.
Qed.

(** A line that names entry [j] is in the report of the run exactly when it
    is among the lines of entry [j]. *)
Lemma line_at items j entry m :
  items !! j = Some entry ->
  Forall (fun e => safe e = true) (take j items) ->
  names_entry j m ->
  m ∈ stderr (run (JArr items))
  <-> m ∈ entry_lines (seen_after ∅ (take j items)) j entry.
Proof.
  intros Hj Hsafe Hname.
  assert (Hrun : m ∈ stderr (run (JArr items)) <-> m ∈ diagnostics items).
  { split; [|apply diagnostics_in_stderr].
    rewrite run_array.
    assert (Hsum : m <> summary_failed).
    { destruct Hname as [t ->]. unfold prefix. rewrite <- !app_assoc. discriminate. }
    destruct (scan items); [|done|];
      (destruct (diagnostics items) as [|l ls] eqn:Hd; cbn [stderr];
         [by intros ?%elem_of_nil|];
       rewrite elem_of_app, list_elem_of_singleton; by intros [?|?]).  }
  rewrite Hrun.
  destruct (diagnostics_at _ _ _ Hj Hsafe) as (before & after & -> & Hb & Ha).
  rewrite !elem_of_app. split; [|auto].
  intros [Hin|[?|Hin]]; [|done|].
  - rewrite Forall_forall in Hb. destruct (Hb _ Hin) as (j' & Hlt & [t Ht]).
    destruct Hname as [t' Ht']. rewrite Ht' in Ht. apply prefix_inj in Ht. lia.
  - rewrite Forall_forall in Ha. destruct (Ha _ Hin) as (j' & Hlt & [t Ht]).
    destruct Hname as [t' Ht']. rewrite Ht' in Ht. apply prefix_inj in Ht. lia.
Qed.

End FieldLines.

Section FieldTheorems.
Context {number : Type} `{!Runtime number}.
Implicit Types (entry : json number) (items : list (json number)).

Lemma not_true_iff_false_spec (b : bool) (P : Prop) :
  (b = true <-> P) -> (b = false <-> ~ P).
Proof. intros HP. rewrite <- HP. destruct b; split; (done || congruence). Qed.

(** Lines 13-15 and 67-72.  For an object entry that the loop reaches, the
    line of a required string field ([id], [tool], [version],
    [description], [signer]) is in the output exactly when the field is
    missing, is not a string, or is a string of white space only. *)
Theorem required_string_line items j entry key :
  items !! j = Some entry ->
  is_object entry = true ->
  Forall (fun e => safe e = true) (take j items) ->
  key ∈ requiredStrings ->
  field_message j key (ustr " must be a non-empty string") ∈ stderr (run (JArr items))
  <-> ~ exists s, get entry key = Some (JStr s)
                  /\ exists c, c ∈ s /\ is_white_space c = false.
Proof.
  intros Hj Hobj Hsafe Hkey.
  rewrite (line_at _ _ _ _ Hj Hsafe (names_entry_field _ _ _)).
  change (field_message j key (ustr " must be a non-empty string"))
    with (check_line j {| check_field := key;
                          check_what := ustr " must be a non-empty string";
                          check_holds := isNonEmptyString (get entry key) |}).
  rewrite entry_lines_before_source; [|done|].
  - apply not_true_iff_false_spec, isNonEmptyString_spec.
  - apply elem_of_app. left.
    apply list_elem_of_In.
    apply (in_map (fun key => {| check_field := key;
                                 check_what := ustr " must be a non-empty string";
                                 check_holds := isNonEmptyString (get entry key) |})).
    apply list_elem_of_In, Hkey.
Qed.

(** Lines 38-40 and 74-80.  The line of [frameworks], and that of
    [mappingIds], is in the output exactly when the field is not an array,
    is an empty array, or has an element that is not a string with a code
    unit other than white space. *)
Theorem string_array_line items j entry :
  items !! j = Some entry ->
  is_object entry = true ->
  Forall (fun e => safe e = true) (take j items) ->
  (field_message j (ustr "frameworks") (ustr " must be a non-empty string array")
     ∈ stderr (run (JArr items))
   <-> ~ exists elements,
           get entry (ustr "frameworks") = Some (JArr elements) /\ elements <> []
           /\ forall v, v ∈ elements -> isNonEmptyString (Some v) = true)
  /\ (field_message j (ustr "mappingIds") (ustr " must be a non-empty string array")
        ∈ stderr (run (JArr items))
      <-> ~ exists elements,
              get entry (ustr "mappingIds") = Some (JArr elements) /\ elements <> []
              /\ forall v, v ∈ elements -> isNonEmptyString (Some v) = true).
Proof.
  intros Hj Hobj Hsafe.
  rewrite !(line_at _ _ _ _ Hj Hsafe (names_entry_field _ _ _)). split.
  - change (field_message j (ustr "frameworks") (ustr " must be a non-empty string array"))
      with (check_line j {| check_field := ustr "frameworks";
                            check_what := ustr " must be a non-empty string array";
                            check_holds :=
                              assertArrayOfStrings (get entry (ustr "frameworks")) |}).
    rewrite entry_lines_before_source; [|done|].
    + apply not_true_iff_false_spec, assertArrayOfStrings_spec.
    + apply elem_of_app. right. repeat constructor.
  - change (field_message j (ustr "mappingIds") (ustr " must be a non-empty string array"))
      with (check_line j {| check_field := ustr "mappingIds";
                            check_what := ustr " must be a non-empty string array";
                            check_holds :=
                              assertArrayOfStrings (get entry (ustr "mappingIds")) |}).
    rewrite entry_lines_before_source; [|done|].
    + apply not_true_iff_false_spec, assertArrayOfStrings_spec.
    + apply elem_of_app. right. repeat constructor.
Qed.

(** Lines 17-25 and 82-88.  The line of [packUrl], and that of
    [publicKeyUrl], is in the output exactly when the field is not a string
    with a code unit other than white space, or [new URL] throws on it, or
    the protocol of the URL is not ["https:"].  A URL that does not parse
    gives the line, and the run goes on. *)
Theorem https_url_line items j entry :
  items !! j = Some entry ->
  is_object entry = true ->
  Forall (fun e => safe e = true) (take j items) ->
  (field_message j (ustr "packUrl") (ustr " must be an https URL")
     ∈ stderr (run (JArr items))
   <-> ~ exists s, get entry (ustr "packUrl") = Some (JStr s)
                   /\ (exists c, c ∈ s /\ is_white_space c = false)
                   /\ URL_protocol s = Some (ustr "https:"))
  /\ (field_message j (ustr "publicKeyUrl") (ustr " must be an https URL")
        ∈ stderr (run (JArr items))
      <-> ~ exists s, get entry (ustr "publicKeyUrl") = Some (JStr s)
                      /\ (exists c, c ∈ s /\ is_white_space c = false)
                      /\ URL_protocol s = Some (ustr "https:")).
Proof.
  intros Hj Hobj Hsafe.
  rewrite !(line_at _ _ _ _ Hj Hsafe (names_entry_field _ _ _)). split.
  - change (field_message j (ustr "packUrl") (ustr " must be an https URL"))
      with (check_line j {| check_field := ustr "packUrl";
                            check_what := ustr " must be an https URL";
                            check_holds := isHttpsUrl (get entry (ustr "packUrl")) |}).
    rewrite entry_lines_before_source; [|done|].
    + apply not_true_iff_false_spec, isHttpsUrl_spec.
    + apply elem_of_app. right. repeat constructor.
  - change (field_message j (ustr "publicKeyUrl") (ustr " must be an https URL"))
      with (check_line j {| check_field := ustr "publicKeyUrl";
                            check_what := ustr " must be an https URL";
                            check_holds := isHttpsUrl (get entry (ustr "publicKeyUrl")) |}).
    rewrite entry_lines_before_source; [|done|].
    + apply not_true_iff_false_spec, isHttpsUrl_spec.
    + apply elem_of_app. right. repeat constructor.
Qed.

(** Lines 27-29 and 90-92.  The line of [sha256] is in the output exactly
    when the field is not a string of exactly 64 hexadecimal digits, in
    either case. *)
Theorem sha256_line items j entry :
  items !! j = Some entry ->
  is_object entry = true ->
  Forall (fun e => safe e = true) (take j items) ->
  field_message j (ustr "sha256") (ustr " must be a 64-char hex string")
    ∈ stderr (run (JArr items))
  <-> ~ exists s, get entry (ustr "sha256") = Some (JStr s) /\ length s = 64%nat
                  /\ forall c, c ∈ s -> is_hex c = true.
Proof.
  intros Hj Hobj Hsafe.
  rewrite (line_at _ _ _ _ Hj Hsafe (names_entry_field _ _ _)).
  change (field_message j (ustr "sha256") (ustr " must be a 64-char hex string"))
    with (check_line j {| check_field := ustr "sha256";
                          check_what := ustr " must be a 64-char hex string";
                          check_holds := isSha256 (get entry (ustr "sha256")) |}).
  rewrite entry_lines_before_source; [|done|].
  - apply not_true_iff_false_spec, isSha256_spec.
  - apply elem_of_app. right. repeat constructor.
Qed.

(** Lines 94-96.  When [String(record.source)] gives a text, the line of
    [source] is in the output exactly when that text is none of [vendor],
    [community], [internal].  What is compared is the text, so a value that
    is not a string but has such a text is let through. *)
Theorem source_line items j entry source :
  items !! j = Some entry ->
  is_object entry = true ->
  Forall (fun e => safe e = true) (take j items) ->
  String_ (get entry (ustr "source")) = inr source ->
  field_message j (ustr "source") (ustr " must be one of: vendor, community, internal")
    ∈ stderr (run (JArr items))
  <-> ~ (source = ustr "vendor" \/ source = ustr "community"
         \/ source = ustr "internal").
Proof.
  intros Hj Hobj Hsafe Hsrc.
  rewrite (line_at _ _ _ _ Hj Hsafe (names_entry_field _ _ _)).
  change (field_message j (ustr "source")
            (ustr " must be one of: vendor, community, internal"))
    with (check_line j {| check_field := ustr "source";
                          check_what := ustr " must be one of: vendor, community, internal";
                          check_holds := bool_decide (source ∈ allowedSources) |}).
  rewrite (entry_lines_from_source _ _ _ source); [|done|done|].
  - apply not_true_iff_false_spec. cbn [check_holds]. rewrite bool_decide_eq_true.
    unfold allowedSources. rewrite !elem_of_union, !elem_of_singleton. tauto.
  - repeat constructor.
Qed.

(** Lines 31-36 and 98-100.  When [String(record.source)] gives a text
    (the script converts [source] before it looks at [createdAt]), the
    line of [createdAt] is in the output exactly when the field is not a
    string of the pattern [dddd-dd-dd] that the date constructor accepts
    as midnight UTC of that day. *)
Theorem createdAt_line items j entry source :
  items !! j = Some entry ->
  is_object entry = true ->
  Forall (fun e => safe e = true) (take j items) ->
  String_ (get entry (ustr "source")) = inr source ->
  field_message j (ustr "createdAt") (ustr " must be ISO date YYYY-MM-DD")
    ∈ stderr (run (JArr items))
  <-> ~ exists s, get entry (ustr "createdAt") = Some (JStr s)
                  /\ date_pattern s = true
                  /\ Date_isNaN (s ++ ustr "T00:00:00Z") = false.
Proof.
  intros Hj Hobj Hsafe Hsrc.
  rewrite (line_at _ _ _ _ Hj Hsafe (names_entry_field _ _ _)).
  change (field_message j (ustr "createdAt") (ustr " must be ISO date YYYY-MM-DD"))
    with (check_line j {| check_field := ustr "createdAt";
                          check_what := ustr " must be ISO date YYYY-MM-DD";
                          check_holds := isIsoDate (get entry (ustr "createdAt")) |}).
  rewrite (entry_lines_from_source _ _ _ source); [|done|done|].
  - apply not_true_iff_false_spec, isIsoDate_spec.
  - repeat constructor.
Qed.

End FieldTheorems.

(** ** The indexes that pass *)

Lemma violation_nil holds (line : ustring) : violation holds line = [] <-> holds = true.
Proof. by destruct holds. Qed.

Lemma table_lines_nil i (rows : list check) :
  flat_map (fun c => violation (check_holds c) (check_line i c)) rows = []
  <-> forallb check_holds rows = true.
Proof.
  induction rows as [|c rows IH]; cbn; [done|].
  by rewrite app_nil, violation_nil, IH, andb_true_iff.
Qed.

Section Accepted.
Context {number : Type} `{!Runtime number}.
Implicit Types (entry : json number) (items : list (json number)).

Lemma passes_field_checks_table entry :
  passes_field_checks entry = true
  <-> is_object entry = true
      /\ forallb check_holds (table_before_source entry) = true
      /\ exists source, String_ (get entry (ustr "source")) = inr source
                        /\ forallb check_holds (table_from_source entry source) = true.
Proof.
  unfold passes_field_checks, source_allowed, table_before_source,
    table_from_source, requiredStrings.
  cbn [forallb map app check_holds]. rewrite !andb_true_iff, ?andb_true_r.
  destruct (String_ (get entry (ustr "source"))) as [e|source].
  - split.
    + intros [[_ Hfalse] _]. discriminate Hfalse.
    + intros (_ & _ & src & Hsrc & _). discriminate Hsrc.
  - split.
    + intros Hall. split; [tauto|]. split; [tauto|].
      exists source. rewrite andb_true_iff. tauto.
    + intros (Hobj & Hbefore & src & [= <-] & Hfrom).
      apply andb_true_iff in Hfrom. tauto.
Qed.

(** An entry that passes the field checks has strings for [id] and
    [version]: nothing in it throws, and it leaves its key. *)
Lemma passes_safe entry :
  passes_field_checks entry = true ->
  safe entry = true
  /\ exists key, identity_key entry = inr key /\ recorded_key entry = Some key.
Proof.
  intros Hp.
  assert (Hstr : forall key, key ∈ requiredStrings ->
                   exists s, get entry key = Some (JStr s)).
  { intros key Hkey. unfold passes_field_checks in Hp.
    do 7 (apply andb_true_iff in Hp as [Hp _]). apply andb_true_iff in Hp as [_ Hp].
    rewrite forallb_forall in Hp. specialize (Hp key).
    rewrite <- list_elem_of_In in Hp.
    apply Hp, isNonEmptyString_spec in Hkey as (s & ? & _). eauto. }
  apply passes_field_checks_table in Hp as (Hobj & _ & source & Hsrc & _).
  destruct (Hstr (ustr "id")) as [a Ha]; [repeat constructor|].
  destruct (Hstr (ustr "version")) as [b Hb]; [repeat constructor|].
  assert (Hkey : identity_key entry = inr (a ++ ustr "@" ++ b)).
  { unfold identity_key. by rewrite Ha, Hb. }
  unfold safe, recorded_key. rewrite Hobj, Hsrc, Hkey. cbn. eauto.
Qed.

(** An entry in which nothing throws writes no line exactly when it passes
    the field checks and its key has not been seen. *)
Lemma entry_lines_nil seen0 i entry :
  safe entry = true ->
  entry_lines seen0 i entry = []
  <-> passes_field_checks entry = true
      /\ forall key, identity_key entry = inr key -> key ∉ seen0.
Proof.
  intros Hsafe. rewrite passes_field_checks_table.
  unfold entry_lines, entry_report. unfold safe in Hsafe.
  destruct (is_object entry); cbn [negb orb] in *.
  2:{ split; [done | by intros [[? _] _]]. }
  destruct (String_ (get entry (ustr "source"))) as [?|source]; [done|].
  destruct (identity_key entry) as [?|key]; [done|].
  rewrite !app_nil, checks_before_source_table, checks_from_source_table,
    !table_lines_nil, violation_nil, negb_true_iff, bool_decide_eq_false.
  split.
  - intros [[? ?] ?]. split_and!; [done|done|by exists source|by intros ? [= <-]].
  - intros [(_ & ? & src & [= <-] & ?) Hkey]. split_and!; [done..|]. by apply Hkey.
Qed.

Lemma expected_nil seen0 i items :
  Forall (fun e => safe e = true) items ->
  expected seen0 i items = []
  <-> Forall (fun e => passes_field_checks e = true) items
      /\ NoDup (map identity_key items)
      /\ forall entry key, entry ∈ items -> identity_key entry = inr key -> key ∉ seen0.
Proof.
  intros Hsafe. revert seen0 i.
  induction Hsafe as [|entry items Hs _ IH]; intros seen0 i; cbn [expected map].
  { split; [intros _|done]. split_and!; [constructor|constructor|].
    by intros ? ? ?%elem_of_nil. }
  rewrite app_nil, IH, (entry_lines_nil _ _ _ Hs), Forall_cons, NoDup_cons.
  split.
  - intros [[Hp Hfresh] (Hall & Hnd & Hrest)].
    destruct (passes_safe _ Hp) as (_ & key & Hkey & Hrec).
    rewrite Hrec in Hrest. cbn [add_key] in Hrest.
    split_and!; [done|done| |done|].
    + rewrite Hkey. intros (e' & Heq & Hin)%list_elem_of_In%in_map_iff.
      apply list_elem_of_In in Hin. apply (Hrest e' key Hin Heq).
      apply elem_of_union. right. by apply elem_of_singleton.
    + intros e' key' [->|Hin]%elem_of_cons Hkey'; [by apply Hfresh|].
      specialize (Hrest e' key' Hin Hkey'). intros Hseen. apply Hrest.
      apply elem_of_union. by left.
  - intros ([Hp Hall] & [Hnot Hnd] & Hfresh).
    destruct (passes_safe _ Hp) as (_ & key & Hkey & Hrec).
    split_and!; [done| |done|done|].
    + intros key' Hkey'. apply (Hfresh entry key'); [apply list_elem_of_here|done].
    + rewrite Hrec. cbn [add_key]. intros e' key' Hin Hkey'.
      apply not_elem_of_union. split.
      * apply (Hfresh e' key'); [by apply list_elem_of_further|done].
      * rewrite not_elem_of_singleton. intros ->. apply Hnot.
        rewrite Hkey, <- Hkey'. apply list_elem_of_In, in_map, list_elem_of_In, Hin.
Qed.

(** Lines 51-114.  The run on an array ends with status 0 exactly when every
    entry passes the object test and each of the twelve field checks, and
    no two entries have the same identity key. *)
Theorem index_passes_exactly items :
  ended (run (JArr items)) = Exit 0
  <-> Forall (fun e => passes_field_checks e = true) items
      /\ NoDup (map identity_key items).
Proof.
  rewrite run_array. split.
  - destruct (scan items) as [[] p|e p|code p] eqn:Hscan.
    + rewrite scan_resume in Hscan. apply resume_returned in Hscan as [Hsafe _].
      destruct (scan_safe _ Hsafe) as (_ & _ & Hd & _).
      destruct (diagnostics items); [|done]. intros _.
      symmetry in Hd. apply (expected_nil _ _ _ Hsafe) in Hd as (? & ? & _). done.
    + done.
    + by apply resume_not_exited in Hscan.
  - intros [Hall Hnd].
    assert (Hsafe : Forall (fun e => safe e = true) items).
    { eapply Forall_impl; [exact Hall|]. cbn. by intros e [? _]%passes_safe. }
    destruct (scan_safe _ Hsafe) as (p & -> & -> & _).
    assert (Hnil : expected ∅ 0 items = []).
    { apply (expected_nil _ _ _ Hsafe). split_and!; [done..|].
      intros. apply not_elem_of_empty. }
    by rewrite Hnil.
Qed.

(** Lines 8-11, 42-54 and 109-114.  Whatever the outcome of reading and
    parsing the file, what the script prints agrees with how it ends: with
    status 0 it has printed the success line and nothing on the error
    stream; with status 1 it has printed at least one line on the error
    stream and nothing on the output stream; and it never ends with
    another status (an uncaught [TypeError] apart, with nothing on the
    output stream). *)
Theorem output_agrees_with_status (indexPath : ustring) (input : @loaded number) :
  (ended (run_file indexPath input) = Exit 0
   /\ stdout (run_file indexPath input) = [ustr "Index validation passed."]
   /\ stderr (run_file indexPath input) = [])
  \/ (ended (run_file indexPath input) = Exit 1
      /\ stdout (run_file indexPath input) = []
      /\ stderr (run_file indexPath input) <> [])
  \/ (ended (run_file indexPath input) = Uncaught TypeError
      /\ stdout (run_file indexPath input) = []).
Proof.
  destruct input as [message|data].
  { right. left. split_and!; [reflexivity..|]. discriminate. }
  change (run_file indexPath (Loaded data)) with (run data).
  destruct data as [| | | |items|]; try (right; left; by split_and!).
  rewrite run_array.
  destruct (scan items) as [[] p|[] p|code p] eqn:Hscan.
  - destruct (diagnostics items); [left; by split_and! | right; left].
    split_and!; [done..|]. cbn. discriminate.
  - right. right. done.
  - by apply resume_not_exited in Hscan.
Qed.

(** Lines 59-107.  Every line on the error stream of a run on an array is
    the summary line or a line that names a position of the array: the
    script reports on no entry that is not there. *)
Theorem every_line_names_an_entry items :
  Forall (fun m => m = ustr "Index validation failed."
                   \/ exists j entry, items !! j = Some entry /\ names_entry j m)
    (stderr (run (JArr items))).
Proof.
  assert (Hd : Forall (fun m => m = ustr "Index validation failed."
                                \/ exists j entry, items !! j = Some entry
                                                   /\ names_entry j m)
                 (diagnostics items)).
  { rewrite diagnostics_scan, scan_resume.
    destruct (resume_lines start 0 items) as (lines & keys & -> & Hlines).
    cbn. eapply Forall_impl; [exact Hlines|]. cbn. intros m (j & Hj & Hm). right.
    destruct (lookup_lt_is_Some_2 items j) as [entry Hentry]; [lia|]. eauto. }
  rewrite run_array.
  destruct (scan items); [|done|];
    (destruct (diagnostics items) eqn:Heq; cbn [stderr]; [constructor|];
     apply Forall_app; split; [done|]; repeat constructor; by left).
Qed.

End Accepted.

(** Lines 51-114.  An index that passes still passes when entries are
    removed from it and the others are put in any order: [items'] holds
    entries of [items], each at most as often as [items] does. *)
Theorem passing_survives_removal_and_reordering
    {number : Type} `{!Runtime number} (items items' : list (json number)) :
  items' ⊆+ items ->
  ended (run (JArr items)) = Exit 0 ->
  ended (run (JArr items')) = Exit 0.
Proof.
  intros [rest Hperm]%submseteq_Permutation.
  rewrite !index_passes_exactly. intros [Hall Hnd].
  apply (Permutation_Forall Hperm) in Hall. apply Forall_app in Hall as [Hall _].
  split; [done|].
  apply (Permutation_map identity_key) in Hperm.
  rewrite Hperm, map_app in Hnd. by apply NoDup_app in Hnd as [? _].
Qed.

(** ** Instances of the theorems above, in [sample_runtime] *)

Lemma required_string_line_witness :
  field_message 0 (ustr "id") (ustr " must be a non-empty string")
    ∈ stderr (run (JArr [JObj [member "id" (text "   ")]]))
  <-> ~ exists s, get (JObj [member "id" (text "   ")]) (ustr "id") = Some (JStr s)
                  /\ exists c, c ∈ s /\ is_white_space c = false.
Proof.
  apply (required_string_line [JObj [member "id" (text "   ")]] 0
           (JObj [member "id" (text "   ")]) (ustr "id"));
    [reflexivity | reflexivity | constructor | repeat constructor].
Defined.

Lemma string_array_line_witness :
  field_message 0 (ustr "frameworks") (ustr " must be a non-empty string array")
    ∈ stderr (run (JArr [JObj [member "frameworks" (JArr [])]]))
  <-> ~ exists elements,
          get (JObj [member "frameworks" (JArr [])]) (ustr "frameworks")
          = Some (JArr elements)
          /\ elements <> []
          /\ forall v, v ∈ elements -> isNonEmptyString (Some v) = true.
Proof.
  refine (proj1 (string_array_line [JObj [member "frameworks" (JArr [])]] 0
                   (JObj [member "frameworks" (JArr [])]) _ _ _));
    [reflexivity | reflexivity | constructor].
Defined.

Lemma https_url_line_witness :
  field_message 0 (ustr "packUrl") (ustr " must be an https URL")
    ∈ stderr (run (JArr [JObj [member "packUrl" (text "http://example.com/pack")]]))
  <-> ~ exists s,
          get (JObj [member "packUrl" (text "http://example.com/pack")]) (ustr "packUrl")
          = Some (JStr s)
          /\ (exists c, c ∈ s /\ is_white_space c = false)
          /\ URL_protocol s = Some (ustr "https:").
Proof.
  refine (proj1 (https_url_line
                   [JObj [member "packUrl" (text "http://example.com/pack")]] 0
                   (JObj [member "packUrl" (text "http://example.com/pack")]) _ _ _));
    [reflexivity | reflexivity | constructor].
Defined.

Lemma sha256_line_witness :
  field_message 0 (ustr "sha256") (ustr " must be a 64-char hex string")
    ∈ stderr (run (JArr [JObj [member "sha256" (JStr (repeat 103 64))]]))
  <-> ~ exists s,
          get (JObj [member "sha256" (JStr (repeat 103 64))]) (ustr "sha256")
          = Some (JStr s)
          /\ length s = 64%nat
          /\ forall c, c ∈ s -> is_hex c = true.
Proof.
  apply (sha256_line [JObj [member "sha256" (JStr (repeat 103 64))]] 0
           (JObj [member "sha256" (JStr (repeat 103 64))]));
    [reflexivity | reflexivity | constructor].
Defined.

(** [source: ["vendor"]], an array, has the text [vendor]. *)
Lemma source_line_witness :
  String_ (get (JObj [member "source" (JArr [text "vendor"])]) (ustr "source"))
  = inr (ustr "vendor")
  /\ (field_message 0 (ustr "source")
        (ustr " must be one of: vendor, community, internal")
        ∈ stderr (run (JArr [JObj [member "source" (JArr [text "vendor"])]]))
      <-> ~ (ustr "vendor" = ustr "vendor" \/ ustr "vendor" = ustr "community"
             \/ ustr "vendor" = ustr "internal")).
Proof.
  split; [reflexivity|].
  apply (source_line [JObj [member "source" (JArr [text "vendor"])]] 0
           (JObj [member "source" (JArr [text "vendor"])]) (ustr "vendor"));
    [reflexivity | reflexivity | constructor | reflexivity].
Defined.

Lemma createdAt_line_witness :
  field_message 0 (ustr "createdAt") (ustr " must be ISO date YYYY-MM-DD")
    ∈ stderr (run (JArr [entry_created_at "2024-13-40"]))
  <-> ~ exists s,
          get (entry_created_at "2024-13-40") (ustr "createdAt") = Some (JStr s)
          /\ date_pattern s = true
          /\ Date_isNaN (s ++ ustr "T00:00:00Z") = false.
Proof.
  apply (createdAt_line [entry_created_at "2024-13-40"] 0
           (entry_created_at "2024-13-40") (ustr "vendor"));
    [reflexivity | reflexivity | constructor | reflexivity].
Defined.

Lemma passing_survives_removal_and_reordering_witness :
  [entry_with_id "c"; entry_with_id "a"]
  ⊆+ [entry_with_id "a"; entry_with_id "b"; entry_with_id "c"]
  /\ ended (run (JArr [entry_with_id "a"; entry_with_id "b"; entry_with_id "c"]))
     = Exit 0
  /\ ended (run (JArr [entry_with_id "c"; entry_with_id "a"])) = Exit 0.
Proof.
  assert (Hsub : [entry_with_id "c"; entry_with_id "a"]
                 ⊆+ [entry_with_id "a"; entry_with_id "b"; entry_with_id "c"]).
  { eapply submseteq_trans; [apply submseteq_swap|].
    apply submseteq_skip, submseteq_cons. reflexivity. }
  assert (Hrun : ended (run (JArr [entry_with_id "a"; entry_with_id "b";
                                   entry_with_id "c"])) = Exit 0).
  { vm_compute. reflexivity. }
  split; [exact Hsub|]. split; [exact Hrun|].
  exact (passing_survives_removal_and_reordering _ _ Hsub Hrun).
Defined.
